(** * Argent quantitative analytics: indicators, backtest and portfolio metrics

    A shallow embedding of the numeric helpers of
    [frontend/src/hooks/usePriceHistory.ts], [useBacktest.ts] and
    [usePortfolio.ts], and the properties the specification states about them.

    JavaScript numbers are IEEE-754 binary64 values.  The functions are
    written once, over an interface [Number] of the arithmetic the source
    uses, and read at two instances:
    - [float_Number]: Rocq's primitive binary64 floats, the arithmetic the
      program really runs (used to evaluate it on concrete inputs);
    - [R_Number]: the real numbers, the exact arithmetic the specification's
      formulas are written in (used for properties over all inputs).
    Array lengths, loop indices and periods are natural numbers. *)

From Stdlib Require Import Floats String Ascii.
From Stdlib Require Import List ZArith Lia Bool Reals Lra Permutation.
Import ListNotations.

Set Implicit Arguments.

(** ** The arithmetic of the source *)

Class Number (num : Type) : Type := {
  of_Z   : Z -> num;              (* an integer literal, or a length *)
  nadd   : num -> num -> num;     (* a + b *)
  nsub   : num -> num -> num;     (* a - b *)
  nmul   : num -> num -> num;     (* a * b *)
  ndiv   : num -> num -> num;     (* a / b *)
  nsqrt  : num -> num;            (* Math.sqrt(a) *)
  nround : num -> num;            (* Math.round(a) *)
  nltb   : num -> num -> bool;    (* a < b *)
  nleb   : num -> num -> bool;    (* a <= b *)
  neqb   : num -> num -> bool     (* a === b *)
}.

Declare Scope js_scope.
Delimit Scope js_scope with js.
Infix "+" := nadd : js_scope.
Infix "-" := nsub : js_scope.
Infix "*" := nmul : js_scope.
Infix "/" := ndiv : js_scope.
Infix "<?" := nltb : js_scope.
Infix "<=?" := nleb : js_scope.
Infix "=?" := neqb : js_scope.
Notation "a >? b" := (nltb b a) (at level 70) : js_scope.
Notation "a >=? b" := (nleb b a) (at level 70) : js_scope.

(** *** Binary64 instance *)

Definition float_of_Z (z : Z) : float :=
  match z with
  | Z0 => PrimFloat.of_uint63 (Uint63.of_Z 0)
  | Zpos _ => PrimFloat.of_uint63 (Uint63.of_Z z)
  | Zneg p => PrimFloat.opp (PrimFloat.of_uint63 (Uint63.of_Z (Zpos p)))
  end.

(* Math.round: the nearest integer, ties towards +Infinity.  A finite value
   with a negative exponent is below 2^53, so the integer is built exactly;
   every other value (integers, zeros, infinities, NaN) is returned as is.
   A negative value that rounds to zero gives -0. *)
Definition float_round (x : float) : float :=
  match Prim2SF x with
  | S754_finite s m e =>
      if (0 <=? e)%Z then x
      else
        let n := if s then Zneg m else Zpos m in
        let d := Z.pow 2 (- e) in
        let r := Z.div (2 * n + d) (2 * d) in
        if s && (r =? 0)%Z then PrimFloat.opp (float_of_Z 0) else float_of_Z r
  | _ => x
  end.

#[export] Instance float_Number : Number float := {|
  of_Z := float_of_Z;
  nadd := PrimFloat.add;
  nsub := PrimFloat.sub;
  nmul := PrimFloat.mul;
  ndiv := PrimFloat.div;
  nsqrt := PrimFloat.sqrt;
  nround := float_round;
  nltb := PrimFloat.ltb;
  nleb := PrimFloat.leb;
  neqb := PrimFloat.eqb
|}.

(** *** Exact instance *)

Definition Rltb (a b : R) : bool := if Rlt_dec a b then true else false.
Definition Rleb (a b : R) : bool := if Rle_dec a b then true else false.
Definition Reqb (a b : R) : bool := if Req_dec_T a b then true else false.
Definition Rround (a : R) : R := IZR (Int_part (a + / 2)).

#[export] Instance R_Number : Number R := {|
  of_Z := IZR;
  nadd := Rplus;
  nsub := Rminus;
  nmul := Rmult;
  ndiv := Rdiv;
  nsqrt := R_sqrt.sqrt;
  nround := Rround;
  nltb := Rltb;
  nleb := Rleb;
  neqb := Reqb
|}.

(** ** Array helpers *)

Section Arrays.
Context {A : Type}.

(* arr.slice(a, b) for 0 <= a *)
Definition slice (a b : nat) (l : list A) : list A := firstn (b - a) (skipn a l).

(* arr.slice(-p): the last p elements; slice(-0) is slice(0), the whole array *)
Definition slice_last (p : nat) (l : list A) : list A :=
  match p with
  | O => l
  | _ => skipn (length l - p) l
  end.

(* for (let i = lo; i < hi; i++) s = body(i, s) *)
Definition for_range {S : Type} (lo hi : nat) (body : nat -> S -> S) (s0 : S) : S :=
  fold_left (fun s i => body i s) (seq lo (hi - lo)) s0.
End Arrays.

(* s.split('T')[0]: the part of s before its first 'T' *)
Fixpoint before_T (s : string) : string :=
  match s with
  | EmptyString => EmptyString
  | String c r => if Ascii.eqb c "T" then EmptyString else String c (before_T r)
  end.

(** ** usePriceHistory.ts *)

Section PriceHistory.
Context {num : Type} `{Number num}.
Local Open Scope js_scope.

Definition of_nat (n : nat) : num := of_Z (Z.of_nat n).

(* data[i]; every index the source reads lies inside the array under the
   length guards that precede it, where the default is never used *)
Definition get (data : list num) (i : nat) : num := nth i data (of_Z 0).

(* arr.reduce((a, b) => a + b, 0) *)
Definition sum (l : list num) : num := fold_left nadd l (of_Z 0).

Record PriceBar : Type := {
  timestamp : string;
  open : num;
  high : num;
  low : num;
  close : num;
  volume : Z
}.

Record Point : Type := { time : string; value : num }.

(* bars[i].timestamp.split('T')[0], for an index inside bars *)
Definition bar_date (bars : list PriceBar) (i : nat) : string :=
  match nth_error bars i with
  | Some b => before_T (timestamp b)
  | None => EmptyString
  end.

Definition calculateSMA (data : list num) (period : nat) : option num :=
  if (length data <? period)%nat then None
  else Some (sum (slice_last period data) / of_nat period).

Definition calculateEMA (data : list num) (period : nat) : option num :=
  if (length data <? period)%nat then None
  else
    let multiplier := of_Z 2 / (of_nat period + of_Z 1) in
    let ema := sum (slice 0 period data) / of_nat period in
    Some (for_range period (length data)
            (fun i ema => (get data i - ema) * multiplier + ema) ema).

(* the first loop of calculateRSI and generateRSISeries: (gains, losses) *)
Definition rsi_seed_step (data : list num) (i : nat) (gl : num * num) : num * num :=
  let '(gains, losses) := gl in
  let change := get data i - get data (i - 1) in
  if change >? of_Z 0 then (gains + change, losses) else (gains, losses - change).

(* the Wilder smoothing step: (avgGain, avgLoss) *)
Definition rsi_smooth_step (data : list num) (period i : nat) (gl : num * num)
  : num * num :=
  let '(avgGain, avgLoss) := gl in
  let change := get data i - get data (i - 1) in
  if change >? of_Z 0
  then ((avgGain * (of_nat period - of_Z 1) + change) / of_nat period,
        (avgLoss * (of_nat period - of_Z 1)) / of_nat period)
  else ((avgGain * (of_nat period - of_Z 1)) / of_nat period,
        (avgLoss * (of_nat period - of_Z 1) - change) / of_nat period).

(* the averages calculateRSI holds when it reaches its final test *)
Definition rsi_averages (data : list num) (period : nat) : num * num :=
  let '(gains, losses) :=
    for_range 1 (period + 1) (rsi_seed_step data) (of_Z 0, of_Z 0) in
  for_range (period + 1) (length data) (rsi_smooth_step data period)
    (gains / of_nat period, losses / of_nat period).

Definition calculateRSI (data : list num) (period : nat) : option num :=
  if (length data <? period + 1)%nat then None
  else
    let '(avgGain, avgLoss) := rsi_averages data period in
    if avgLoss =? of_Z 0 then Some (of_Z 100)
    else
      let rs := avgGain / avgLoss in
      Some (of_Z 100 - of_Z 100 / (of_Z 1 + rs)).

(* a number is falsy when it is 0 or NaN *)
Definition truthy (x : num) : bool := negb (x =? of_Z 0) && (x =? x).

(* v || d, where v is a number or undefined *)
Definition or_else (v : option num) (d : num) : num :=
  match v with
  | Some x => if truthy x then x else d
  | None => d
  end.

Record MACD : Type := { macd : num; signal : num; histogram : num }.

Definition calculateMACD (data : list num) : option MACD :=
  match calculateEMA data 12, calculateEMA data 26 with
  | Some ema12, Some ema26 =>
      let ema12Running := sum (slice 0 12 data) / of_Z 12 in
      let ema26Running := sum (slice 0 26 data) / of_Z 26 in
      let '(_, _, macdValues) :=
        for_range 26 (length data)
          (fun i '(ema12Running, ema26Running, macdValues) =>
             let ema12Running :=
               (get data i - ema12Running) * (of_Z 2 / of_Z 13) + ema12Running in
             let ema26Running :=
               (get data i - ema26Running) * (of_Z 2 / of_Z 27) + ema26Running in
             (ema12Running, ema26Running,
              macdValues ++ [ema12Running - ema26Running]))
          (ema12Running, ema26Running, []) in
      let macdLine := ema12 - ema26 in
      let signalLine := or_else (calculateEMA macdValues 9) macdLine in
      Some {| macd := macdLine;
              signal := signalLine;
              histogram := macdLine - signalLine |}
  | _, _ => None
  end.

Inductive IndicatorType : Type := Sma | Ema.

Definition calculateEMAForSeries (data : list num) (period : nat) : num :=
  let multiplier := of_Z 2 / (of_nat period + of_Z 1) in
  for_range 1 (length data)
    (fun i ema => (get data i - ema) * multiplier + ema) (get data 0).

(* With period = 0 the loop starts at i = -1, where bars[-1] is undefined
   and reading its timestamp throws: None.  Otherwise i - period + 1 is
   never negative. *)
Definition generateIndicatorSeries (bars : list PriceBar) (period : nat)
    (type : IndicatorType) : option (list Point) :=
  match period with
  | O => None
  | S _ =>
      let closes := map close bars in
      Some (for_range (period - 1) (length closes)
              (fun i result =>
                 let slice := slice (i + 1 - period) (i + 1) closes in
                 let value :=
                   match type with
                   | Sma => sum slice / of_nat period
                   | Ema => calculateEMAForSeries slice period
                   end in
                 result ++ [ {| time := bar_date bars i; value := value |} ])
              [])
  end.

(* the reading pushed by generateRSISeries for the averages it holds *)
Definition rsi_reading (avgGain avgLoss : num) : num :=
  let rs := if avgLoss =? of_Z 0 then of_Z 100 else avgGain / avgLoss in
  of_Z 100 - of_Z 100 / (of_Z 1 + rs).

Definition generateRSISeries (bars : list PriceBar) (period : nat) : list Point :=
  let closes := map close bars in
  if (length closes <? period + 1)%nat then []
  else
    let '(avgGain, avgLoss) :=
      for_range 1 (period + 1) (rsi_seed_step closes) (of_Z 0, of_Z 0) in
    let avgGain := avgGain / of_nat period in
    let avgLoss := avgLoss / of_nat period in
    let result :=
      [ {| time := bar_date bars period; value := rsi_reading avgGain avgLoss |} ] in
    snd (for_range (period + 1) (length closes)
           (fun i '(avgs, result) =>
              let avgs := rsi_smooth_step closes period i avgs in
              (avgs,
               result ++ [ {| time := bar_date bars i;
                              value := rsi_reading (fst avgs) (snd avgs) |} ]))
           ((avgGain, avgLoss), result)).

End PriceHistory.

Arguments PriceBar : clear implicits.
Arguments Point : clear implicits.
Arguments MACD : clear implicits.

(** ** useBacktest.ts

    The record types come from [api/types]; the fields listed are the ones
    the helpers and their tests read or build. *)

Record EquityPoint (num : Type) : Type := {
  date : string;
  equity : num;
  benchmark : option num;
  drawdown : option num
}.

Module Rolling.
Record t (num : Type) : Type := { date : string; sharpe : num; volatility : num }.
End Rolling.

Inductive TradeStatus : Type := status_open | status_closed.

Module Trade.
Record t (num : Type) : Type := {
  id : string;
  symbol : string;
  pnl : option num;
  pnlPercent : option num;
  status : TradeStatus
}.
End Trade.

(* A histogram bin.  The source labels it with the text start.toFixed(1) + '%';
   the bin keeps the number the label is printed from. *)
Module Distribution.
Record bin (num : Type) : Type := { start : num; count : nat; isPositive : bool }.
Record t (num : Type) : Type := {
  bins : list (bin num);
  winRate : num;
  avgWin : num;
  avgLoss : num
}.
End Distribution.

Module BacktestMetrics.
Record t (num : Type) : Type := {
  totalReturn : num;
  annualizedReturn : num;
  sharpeRatio : num;
  sortinoRatio : num;
  maxDrawdown : num;
  winRate : num;
  profitFactor : num;
  totalTrades : num;
  winningTrades : num;
  losingTrades : num;
  avgWin : num;
  avgLoss : num;
  avgHoldingPeriod : num
}.
End BacktestMetrics.

Module BacktestResult.
Record t (num : Type) : Type := {
  id : string;
  strategyName : string;
  metrics : BacktestMetrics.t num
}.
End BacktestResult.

Module Comparison.
Record entry (num : Type) : Type := { name : string; value : num; best : bool }.
Record row (num : Type) : Type := { metric : string; values : list (entry num) }.
End Comparison.

(* keyof BacktestMetrics *)
Inductive MetricKey : Type :=
| totalReturn | annualizedReturn | sharpeRatio | sortinoRatio | maxDrawdown
| winRate | profitFactor | totalTrades | winningTrades | losingTrades
| avgWin | avgLoss | avgHoldingPeriod.

Local Open Scope string_scope.

Definition key_name (k : MetricKey) : string :=
  match k with
  | totalReturn => "totalReturn" | annualizedReturn => "annualizedReturn"
  | sharpeRatio => "sharpeRatio" | sortinoRatio => "sortinoRatio"
  | maxDrawdown => "maxDrawdown" | winRate => "winRate"
  | profitFactor => "profitFactor" | totalTrades => "totalTrades"
  | winningTrades => "winningTrades" | losingTrades => "losingTrades"
  | avgWin => "avgWin" | avgLoss => "avgLoss"
  | avgHoldingPeriod => "avgHoldingPeriod"
  end.

Definition is_maxDrawdown (k : MetricKey) : bool :=
  match k with maxDrawdown => true | _ => false end.

Definition metrics : list MetricKey :=
  [totalReturn; annualizedReturn; sharpeRatio; maxDrawdown; winRate; profitFactor].

Definition metricLabels (k : MetricKey) : option string :=
  match k with
  | totalReturn => Some "Total Return (%)"
  | annualizedReturn => Some "Annualized Return (%)"
  | sharpeRatio => Some "Sharpe Ratio"
  | maxDrawdown => Some "Max Drawdown (%)"
  | winRate => Some "Win Rate (%)"
  | profitFactor => Some "Profit Factor"
  | _ => None
  end.

Definition higherIsBetter (k : MetricKey) : option bool :=
  match k with
  | totalReturn | annualizedReturn | sharpeRatio | winRate | profitFactor => Some true
  | maxDrawdown => Some false
  | _ => None
  end.

(* label || key: an absent or empty label gives the key *)
Definition label_or_key (k : MetricKey) : string :=
  match metricLabels k with
  | Some EmptyString | None => key_name k
  | Some l => l
  end.

Local Close Scope string_scope.

Section Backtest.
Context {num : Type} `{Number num}.
Local Open Scope js_scope.

(* Math.pow(x, 2) *)
Definition pow2 (x : num) : num := x * x.

Definition is_nan (x : num) : bool := negb (x =? x).

(* Math.max and Math.min of two arguments: NaN if either is NaN *)
Definition max2 (a b : num) : num :=
  if is_nan a then a else if is_nan b then b else if a <? b then b else a.
Definition min2 (a b : num) : num :=
  if is_nan a then a else if is_nan b then b else if b <? a then b else a.

(* Math.max(...l) and Math.min(...l).  Both callers hold a non-empty array;
   on an empty one the source gets -Infinity and Infinity, values this
   interface does not have, and the model returns 0. *)
Definition Math_max (l : list num) : num :=
  match l with
  | [] => of_Z 0
  | x :: xs => fold_left max2 xs x
  end.
Definition Math_min (l : list num) : num :=
  match l with
  | [] => of_Z 0
  | x :: xs => fold_left min2 xs x
  end.

(* arr.map((x, idx) => f(x, idx)) *)
Definition mapi {A B : Type} (f : A -> nat -> B) (l : list A) : list B :=
  map (fun ix => f (snd ix) (fst ix)) (combine (seq 0 (length l)) l).

(* The closure variable peak is threaded through the map. *)
Definition calculateDrawdownSeries (equityCurve : list (EquityPoint num))
  : list (EquityPoint num) :=
  match equityCurve with
  | [] => []
  | first :: _ =>
      snd (fold_left
             (fun '(peak, out) point =>
                let peak := if equity point >? peak then equity point else peak in
                let drawdown := ((equity point - peak) / peak) * of_Z 100 in
                (peak,
                 out ++ [ {| date := date point;
                             equity := equity point;
                             benchmark := benchmark point;
                             drawdown := Some drawdown |} ]))
             equityCurve (equity first, []))
  end.

(* equityCurve[i].date and slice[idx].equity, for indices inside the array *)
Definition date_at (curve : list (EquityPoint num)) (i : nat) : string :=
  match nth_error curve i with
  | Some p => date p
  | None => EmptyString
  end.
Definition equity_at (curve : list (EquityPoint num)) (i : nat) : num :=
  get (map (@equity num) curve) i.

Definition calculateRollingMetrics (equityCurve : list (EquityPoint num))
    (window : nat) : list (Rolling.t num) :=
  if (length equityCurve <? window)%nat then []
  else
    for_range window (length equityCurve)
      (fun i result =>
         let slice := slice (i - window) i equityCurve in
         let returns :=
           mapi (fun p idx => (equity p - equity_at slice idx) / equity_at slice idx)
                (skipn 1 slice) in
         let avgReturn := sum returns / of_nat (length returns) in
         let variance :=
           fold_left (fun sum r => sum + pow2 (r - avgReturn)) returns (of_Z 0)
           / of_nat (length returns) in
         let volatility := nsqrt variance * nsqrt (of_Z 252) * of_Z 100 in
         let sharpe :=
           if volatility >? of_Z 0
           then (avgReturn * of_Z 252) / (volatility / of_Z 100)
           else of_Z 0 in
         result ++ [ {| Rolling.date := date_at equityCurve i;
                        Rolling.sharpe := sharpe;
                        Rolling.volatility := volatility |} ])
      [].

(* t.pnlPercent || 0 *)
Definition pnlPercent_or0 (t : Trade.t num) : num :=
  or_else (Trade.pnlPercent t) (of_Z 0).

Definition is_closed (t : Trade.t num) : bool :=
  match Trade.status t, Trade.pnlPercent t with
  | status_closed, Some _ => true
  | _, _ => false
  end.

Definition analyzeTradeDistribution (trades : list (Trade.t num))
  : Distribution.t num :=
  let closedTrades := filter is_closed trades in
  match closedTrades with
  | [] => {| Distribution.bins := []; Distribution.winRate := of_Z 0;
             Distribution.avgWin := of_Z 0; Distribution.avgLoss := of_Z 0 |}
  | _ :: _ =>
      let winners := filter (fun t => pnlPercent_or0 t >? of_Z 0) closedTrades in
      let losers := filter (fun t => pnlPercent_or0 t <=? of_Z 0) closedTrades in
      let winRate :=
        (of_nat (length winners) / of_nat (length closedTrades)) * of_Z 100 in
      let avgWin :=
        if (0 <? length winners)%nat
        then fold_left (fun sum t => sum + pnlPercent_or0 t) winners (of_Z 0)
             / of_nat (length winners)
        else of_Z 0 in
      let avgLoss :=
        if (0 <? length losers)%nat
        then fold_left (fun sum t => sum + pnlPercent_or0 t) losers (of_Z 0)
             / of_nat (length losers)
        else of_Z 0 in
      let pnls := map pnlPercent_or0 closedTrades in
      let min := Math_min pnls in
      let max := Math_max pnls in
      let binCount := 20%nat in
      let binSize := (max - min) / of_nat binCount in
      let bins :=
        for_range 0 binCount
          (fun i bins =>
             let start := min + of_nat i * binSize in
             let end_ := start + binSize in
             let count :=
               length (filter (fun p => (p >=? start) && (p <? end_)) pnls) in
             bins ++ [ {| Distribution.start := start;
                          Distribution.count := count;
                          Distribution.isPositive := start >=? of_Z 0 |} ])
          [] in
      {| Distribution.bins := bins; Distribution.winRate := winRate;
         Distribution.avgWin := avgWin; Distribution.avgLoss := avgLoss |}
  end.

(* r.metrics[metric] *)
Definition metric_value (m : BacktestMetrics.t num) (k : MetricKey) : num :=
  match k with
  | totalReturn => BacktestMetrics.totalReturn m
  | annualizedReturn => BacktestMetrics.annualizedReturn m
  | sharpeRatio => BacktestMetrics.sharpeRatio m
  | sortinoRatio => BacktestMetrics.sortinoRatio m
  | maxDrawdown => BacktestMetrics.maxDrawdown m
  | winRate => BacktestMetrics.winRate m
  | profitFactor => BacktestMetrics.profitFactor m
  | totalTrades => BacktestMetrics.totalTrades m
  | winningTrades => BacktestMetrics.winningTrades m
  | losingTrades => BacktestMetrics.losingTrades m
  | avgWin => BacktestMetrics.avgWin m
  | avgLoss => BacktestMetrics.avgLoss m
  | avgHoldingPeriod => BacktestMetrics.avgHoldingPeriod m
  end.

Definition bestValue (metric : MetricKey) (values : list (string * num)) : num :=
  match higherIsBetter metric with
  | Some true => Math_max (map snd values)
  | _ =>
      if is_maxDrawdown metric
      then Math_max (map snd values)
      else Math_min (map snd values)
  end.

Definition compareBacktestMetrics (results : list (BacktestResult.t num))
  : list (Comparison.row num) :=
  match results with
  | [] => []
  | _ :: _ =>
      map (fun metric =>
             let values :=
               map (fun r => (BacktestResult.strategyName r,
                              metric_value (BacktestResult.metrics r) metric))
                   results in
             let bestValue := bestValue metric values in
             {| Comparison.metric := label_or_key metric;
                Comparison.values :=
                  map (fun v => {| Comparison.name := fst v;
                                   Comparison.value := snd v;
                                   Comparison.best := snd v =? bestValue |})
                      values |})
          metrics
  end.

End Backtest.

(** ** usePortfolio.ts *)

Record Position (num : Type) : Type := {
  symbol : string;
  marketValue : num;
  unrealizedPnL : num;
  allocation : num
}.

Record PortfolioMetrics (num : Type) : Type := {
  totalValue : num;
  totalPnL : num;
  totalPnLPercent : num
}.

Section Portfolio.
Context {num : Type} `{Number num}.
Local Open Scope js_scope.

Definition calculatePortfolioMetrics (positions : list (Position num))
  : PortfolioMetrics num :=
  let totalValue := fold_left (fun sum p => sum + marketValue p) positions (of_Z 0) in
  let totalPnL := fold_left (fun sum p => sum + unrealizedPnL p) positions (of_Z 0) in
  let totalPnLPercent :=
    if totalValue >? of_Z 0
    then (totalPnL / (totalValue - totalPnL)) * of_Z 100
    else of_Z 0 in
  {| totalValue := totalValue; totalPnL := totalPnL;
     totalPnLPercent := totalPnLPercent |}.

Definition calculateDiversificationScore (positions : list (Position num)) : num :=
  match length positions with
  | 0%nat => of_Z 0
  | 1%nat => of_Z 0
  | _ =>
      let hhi :=
        fold_left (fun sum p => sum + pow2 (allocation p / of_Z 100)) positions
                  (of_Z 0) in
      let maxDiversification := of_Z 1 / of_nat (length positions) in
      nround ((of_Z 1 - hhi) / (of_Z 1 - maxDiversification) * of_Z 100)
  end.

End Portfolio.

(** ** usePriceHistory.ts: the remaining indicators and series *)

(* Math.abs *)
Class Absolute (num : Type) : Type := { nabs : num -> num }.

#[export] Instance float_Absolute : Absolute float := {| nabs := PrimFloat.abs |}.
#[export] Instance R_Absolute : Absolute R := {| nabs := Rabs |}.

Record Bands (num : Type) : Type := { upper : num; middle : num; lower : num }.

Module TechnicalIndicators.
Record t (num : Type) : Type := {
  sma20 : option num;
  sma50 : option num;
  sma200 : option num;
  ema12 : option num;
  ema26 : option num;
  rsi : option num;
  macd : option (MACD num);
  bollingerBands : option (Bands num);
  atr : option num
}.
End TechnicalIndicators.

Module BandSeries.
Record t (num : Type) : Type := {
  upper : list (Point num);
  middle : list (Point num);
  lower : list (Point num)
}.
End BandSeries.

Module MACDSeries.
Record bar (num : Type) : Type := { time : string; value : num; color : string }.
Record t (num : Type) : Type := {
  macdLine : list (Point num);
  signalLine : list (Point num);
  histogram : list (bar num)
}.
End MACDSeries.

Section MoreIndicators.
Context {num : Type} `{Number num} `{Absolute num}.
Local Open Scope js_scope.

Definition calculateBollingerBands (data : list num) (period : nat) (stdDev : num)
  : option (Bands num) :=
  if (length data <? period)%nat then None
  else
    match calculateSMA data period with
    | None => None
    | Some sma =>
        let recentData := slice_last period data in
        let squaredDiffs := map (fun v => pow2 (v - sma)) recentData in
        let variance := sum squaredDiffs / of_nat period in
        let std := nsqrt variance in
        Some {| upper := sma + stdDev * std;
                middle := sma;
                lower := sma - stdDev * std |}
    end.

(* The guard is on highs alone; the only caller passes three arrays read off
   the same bars, where every index read lies inside all three. *)
Definition calculateATR (highs lows closes : list num) (period : nat) : option num :=
  if (length highs <? period + 1)%nat then None
  else
    let trueRanges :=
      for_range 1 (length highs)
        (fun i trueRanges =>
           let tr :=
             max2 (max2 (get highs i - get lows i)
                        (nabs (get highs i - get closes (i - 1))))
                  (nabs (get lows i - get closes (i - 1))) in
           trueRanges ++ [tr])
        [] in
    calculateSMA trueRanges period.

(* the empty object returned for no bars has every field undefined *)
Definition calculateIndicators (bars : list (PriceBar num))
  : TechnicalIndicators.t num :=
  match bars with
  | [] =>
      {| TechnicalIndicators.sma20 := None; TechnicalIndicators.sma50 := None;
         TechnicalIndicators.sma200 := None; TechnicalIndicators.ema12 := None;
         TechnicalIndicators.ema26 := None; TechnicalIndicators.rsi := None;
         TechnicalIndicators.macd := None;
         TechnicalIndicators.bollingerBands := None;
         TechnicalIndicators.atr := None |}
  | _ :: _ =>
      let closes := map (@close num) bars in
      let highs := map (@high num) bars in
      let lows := map (@low num) bars in
      {| TechnicalIndicators.sma20 := calculateSMA closes 20;
         TechnicalIndicators.sma50 := calculateSMA closes 50;
         TechnicalIndicators.sma200 := calculateSMA closes 200;
         TechnicalIndicators.ema12 := calculateEMA closes 12;
         TechnicalIndicators.ema26 := calculateEMA closes 26;
         TechnicalIndicators.rsi := calculateRSI closes 14;
         TechnicalIndicators.macd := calculateMACD closes;
         TechnicalIndicators.bollingerBands :=
           calculateBollingerBands closes 20 (of_Z 2);
         TechnicalIndicators.atr := calculateATR highs lows closes 14 |}
  end.

(* As in generateIndicatorSeries, period = 0 makes the loop read bars[-1]
   and throw: None. *)
Definition generateBollingerBandsSeries (bars : list (PriceBar num)) (period : nat)
    (stdDev : num) : option (BandSeries.t num) :=
  match period with
  | O => None
  | S _ =>
      let closes := map (@close num) bars in
      let '(upper, middle, lower) :=
        for_range (period - 1) (length closes)
          (fun i '(upper, middle, lower) =>
             let slice := slice (i + 1 - period) (i + 1) closes in
             let sma := sum slice / of_nat period in
             let variance :=
               fold_left (fun sum val => sum + pow2 (val - sma)) slice (of_Z 0)
               / of_nat period in
             let std := nsqrt variance in
             let time := bar_date bars i in
             (upper ++ [ {| time := time; value := sma + stdDev * std |} ],
              middle ++ [ {| time := time; value := sma |} ],
              lower ++ [ {| time := time; value := sma - stdDev * std |} ]))
          ([], [], []) in
      Some {| BandSeries.upper := upper;
              BandSeries.middle := middle;
              BandSeries.lower := lower |}
  end.

Definition generateMACDSeries (bars : list (PriceBar num)) : MACDSeries.t num :=
  let closes := map (@close num) bars in
  if (length closes <? 26)%nat
  then {| MACDSeries.macdLine := []; MACDSeries.signalLine := [];
          MACDSeries.histogram := [] |}
  else
    let ema12 := sum (slice 0 12 closes) / of_Z 12 in
    let ema26 := sum (slice 0 26 closes) / of_Z 26 in
    let '(_, _, macdValues, macdLine) :=
      for_range 26 (length closes)
        (fun i '(ema12, ema26, macdValues, macdLine) =>
           let ema12 := (get closes i - ema12) * (of_Z 2 / of_Z 13) + ema12 in
           let ema26 := (get closes i - ema26) * (of_Z 2 / of_Z 27) + ema26 in
           let macd := ema12 - ema26 in
           (ema12, ema26, macdValues ++ [macd],
            macdLine ++ [ {| time := bar_date bars i; value := macd |} ]))
        (ema12, ema26, [], []) in
    let '(signalLine, histogram) :=
      if (9 <=? length macdValues)%nat
      then
        let signal := sum (slice 0 9 macdValues) / of_Z 9 in
        let '(_, signalLine, histogram) :=
          for_range 8 (length macdValues)
            (fun i '(signal, signalLine, histogram) =>
               let signal :=
                 (get macdValues i - signal) * (of_Z 2 / of_Z 10) + signal in
               let time := bar_date bars (i + 26) in
               let histValue := get macdValues i - signal in
               (signal,
                signalLine ++ [ {| time := time; value := signal |} ],
                histogram ++
                  [ {| MACDSeries.time := time;
                       MACDSeries.value := histValue;
                       MACDSeries.color :=
                         if histValue >=? of_Z 0 then "#26a69a" else "#ef5350" |} ]))
            (signal, [], []) in
        (signalLine, histogram)
      else ([], []) in
    {| MACDSeries.macdLine := macdLine;
       MACDSeries.signalLine := signalLine;
       MACDSeries.histogram := histogram |}.

End MoreIndicators.

(** ** usePortfolio.ts: allocation groups *)

Module AllocationGroup.
Record t (num : Type) : Type := { name : string; value : num; percentage : num }.
End AllocationGroup.

Definition groupPositionsByAllocation {num : Type} (positions : list (Position num))
  : list (AllocationGroup.t num) :=
  map (fun p => {| AllocationGroup.name := symbol p;
                   AllocationGroup.value := marketValue p;
                   AllocationGroup.percentage := allocation p |})
      positions.

(** ** The components that call the helpers *)

Section Callers.
Context {num : Type} `{Number num}.
Local Open Scope js_scope.

(* DrawdownChart: the figure shown as "Max Drawdown",
   Math.min(...drawdownData.map((d) => d.drawdown || 0)); with no data the
   component shows a placeholder and computes nothing. *)
Definition DrawdownChart_maxDrawdown (data : list (EquityPoint num)) : option num :=
  match data with
  | [] => None
  | _ :: _ =>
      let drawdownData := calculateDrawdownSeries data in
      Some (Math_min (map (fun d => or_else (drawdown d) (of_Z 0)) drawdownData))
  end.

(* StrategyComparison: the test behind the "Top Performer" badge *)
Definition isTopPerformer (results : list (BacktestResult.t num))
    (result : BacktestResult.t num) : bool :=
  BacktestMetrics.totalReturn (BacktestResult.metrics result)
  =? Math_max (map (fun r => BacktestMetrics.totalReturn (BacktestResult.metrics r))
                   results).

End Callers.

(** ** Reference definitions, in the words of the specification *)

Section Reference.
Context {num : Type} `{Number num}.
Local Open Scope js_scope.

(* the recurrence ema_i = (x_i - ema_{i-1}) * multiplier + ema_{i-1},
   walked once over xs from a seed *)
Definition ema_walk (multiplier seed : num) (xs : list num) : num :=
  fold_left (fun ema x => (x - ema) * multiplier + ema) xs seed.

(* ema(data, period): seeded with the simple average of the first period
   elements, then the recurrence for i >= period *)
Definition ema_spec (data : list num) (period : nat) : option num :=
  if (length data <? period)%nat then None
  else Some (ema_walk (of_Z 2 / (of_nat period + of_Z 1))
               (sum (firstn period data) / of_nat period)
               (skipn period data)).

End Reference.

(* the sum of a list of reals *)
Definition total (l : list R) : R := fold_right Rplus 0%R l.

Definition mean (l : list R) : R := (total l / INR (length l))%R.

(* the population standard deviation: the squared deviations are divided by
   the number of values, not by one less *)
Definition population_stddev (l : list R) : R :=
  R_sqrt.sqrt (total (map (fun r => ((r - mean l) * (r - mean l))%R) l)
               / INR (length l)).


(* b is a greatest element of l *)
Definition is_maximum (b : R) (l : list R) : Prop :=
  In b l /\ forall x, In x l -> (x <= b)%R.

(* what a row of the comparison says about metric k: one entry per strategy,
   marked best exactly when its value is the greatest *)
Definition row_marks_best (results : list (BacktestResult.t R)) (k : MetricKey)
    (row : Comparison.row R) : Prop :=
  exists b : R,
    is_maximum b (map (fun r => metric_value (BacktestResult.metrics r) k) results) /\
    Forall2 (fun r e =>
               Comparison.name e = BacktestResult.strategyName r /\
               Comparison.value e = metric_value (BacktestResult.metrics r) k /\
               (Comparison.best e = true <-> Comparison.value e = b))
            results (Comparison.values row).

(* every close is above the one before it *)
Definition rising (data : list R) : Prop :=
  forall i, 1 <= i < length data -> (get data (i - 1) < get data i)%R.

(* the series a, a + d, a + 2d, ... *)
Definition linear_term (a d : R) (i : nat) : R := (a + d * INR i)%R.

(* p lies in bin i of a histogram that starts at lo with bins of width size *)
Definition in_bin (lo size : R) (i : nat) (p : R) : bool :=
  Rleb (lo + INR i * size) p && Rltb p (lo + INR i * size + size).

(* one step of the map in calculateDrawdownSeries: the state is the running
   peak and the points produced so far *)
Definition drawdown_step (st : R * list (EquityPoint R)) :=
  let '(peak, out) := st in
  fun point : EquityPoint R =>
  let peak := if (equity point >? peak)%js then equity point else peak in
  let drawdown := ((equity point - peak) / peak * of_Z 100)%js in
  (peak,
   out ++ [ {| date := date point; equity := equity point;
               benchmark := benchmark point; drawdown := Some drawdown |} ]).

(* an optional result is present *)
Definition defined {A : Type} (o : option A) : bool :=
  match o with Some _ => true | None => false end.

(* the histogram bar generateMACDSeries pushes next to the signal point s
   it has just computed for macdValues[i] *)
Definition histogram_bar {num : Type} `{Number num} (macdValues : list num) (i : nat)
    (s : Point num) : MACDSeries.bar num :=
  {| MACDSeries.time := time s;
     MACDSeries.value := (get macdValues i - value s)%js;
     MACDSeries.color :=
       if (get macdValues i - value s >=? of_Z 0)%js then "#26a69a" else "#ef5350" |}.

(** ** Concrete inputs *)

Definition bar_of {num : Type} (ts : string) (c : num) : PriceBar num :=
  {| timestamp := ts; open := c; high := c; low := c; close := c; volume := 1000 |}.

(* the closes 1, 2, ..., n *)
Definition rising_closes (n : nat) : list float :=
  map (fun i => float_of_Z (Z.of_nat i + 1)) (seq 0 n).

(* sixteen daily bars closing at 1, 2, ..., 16 *)
Definition rising_bars : list (PriceBar float) :=
  map (bar_of "2024-01-02T00:00:00Z") (rising_closes 16).

(* three bars closing at 1, 2, 3 *)
Definition three_bars : list (PriceBar float) :=
  map (bar_of "2024-01-02T00:00:00Z") [1%float; 2%float; 3%float].

(* n closes 100, 100.5, 101, ..., rising by 0.5 per bar *)
Definition uptrend_closes {num : Type} `{Number num} (n : nat) : list num :=
  map (fun i => (of_Z 100 + of_nat i / of_Z 2)%js) (seq 0 n).

Definition equity_point {num : Type} (d : string) (e : num) : EquityPoint num :=
  {| date := d; equity := e; benchmark := None; drawdown := None |}.

(* an account that starts at -100 and falls to -200 *)
Definition negative_curve {num : Type} `{Number num} : list (EquityPoint num) :=
  [equity_point "2023-01-01" (of_Z (-100)); equity_point "2023-01-02" (of_Z (-200))].

(* the curve 100, 110, 100, 105, 120 *)
Definition sample_curve {num : Type} `{Number num} : list (EquityPoint num) :=
  map (fun e => equity_point "2023-01-01" (of_Z e)) [100; 110; 100; 105; 120]%Z.

(* the two strategies of the comparison tests: A draws down 10, B only 5 *)
Definition strategy_A {num : Type} `{Number num} : BacktestResult.t num :=
  {| BacktestResult.id := "1"; BacktestResult.strategyName := "Strategy A";
     BacktestResult.metrics :=
       {| BacktestMetrics.totalReturn := of_Z 20;
          BacktestMetrics.annualizedReturn := of_Z 22;
          BacktestMetrics.sharpeRatio := (of_Z 15 / of_Z 10)%js;
          BacktestMetrics.sortinoRatio := of_Z 2;
          BacktestMetrics.maxDrawdown := of_Z (-10);
          BacktestMetrics.winRate := of_Z 60;
          BacktestMetrics.profitFactor := (of_Z 18 / of_Z 10)%js;
          BacktestMetrics.totalTrades := of_Z 50;
          BacktestMetrics.winningTrades := of_Z 30;
          BacktestMetrics.losingTrades := of_Z 20;
          BacktestMetrics.avgWin := of_Z 5;
          BacktestMetrics.avgLoss := of_Z (-3);
          BacktestMetrics.avgHoldingPeriod := of_Z 5 |} |}.

Definition strategy_B {num : Type} `{Number num} : BacktestResult.t num :=
  {| BacktestResult.id := "2"; BacktestResult.strategyName := "Strategy B";
     BacktestResult.metrics :=
       {| BacktestMetrics.totalReturn := of_Z 15;
          BacktestMetrics.annualizedReturn := of_Z 16;
          BacktestMetrics.sharpeRatio := (of_Z 12 / of_Z 10)%js;
          BacktestMetrics.sortinoRatio := (of_Z 15 / of_Z 10)%js;
          BacktestMetrics.maxDrawdown := of_Z (-5);
          BacktestMetrics.winRate := of_Z 55;
          BacktestMetrics.profitFactor := (of_Z 15 / of_Z 10)%js;
          BacktestMetrics.totalTrades := of_Z 40;
          BacktestMetrics.winningTrades := of_Z 22;
          BacktestMetrics.losingTrades := of_Z 18;
          BacktestMetrics.avgWin := of_Z 4;
          BacktestMetrics.avgLoss := (of_Z (-25) / of_Z 10)%js;
          BacktestMetrics.avgHoldingPeriod := of_Z 7 |} |}.

(* a position that only carries an allocation *)
Definition holding {num : Type} (alloc : num) : Position num :=
  {| symbol := "AAPL"; marketValue := alloc; unrealizedPnL := alloc; allocation := alloc |}.

(* two holdings of 10 percent each, two of 100 percent each, four of 25
   percent each, and the concentrated portfolio 80, 10, 5, 5 *)
Definition two_tenths {num : Type} `{Number num} : list (Position num) :=
  [holding (of_Z 10); holding (of_Z 10)].
Definition two_wholes {num : Type} `{Number num} : list (Position num) :=
  [holding (of_Z 100); holding (of_Z 100)].
Definition even_split {num : Type} `{Number num} : list (Position num) :=
  [holding (of_Z 25); holding (of_Z 25); holding (of_Z 25); holding (of_Z 25)].
Definition concentrated {num : Type} `{Number num} : list (Position num) :=
  [holding (of_Z 80); holding (of_Z 10); holding (of_Z 5); holding (of_Z 5)].

(* the first two positions of the portfolio page's sample data, at 16.8 and
   6.6 percent of a portfolio that also holds cash *)
Definition cash_heavy : list (Position float) :=
  [holding (168 / 10)%float; holding (66 / 10)%float].

(* a position with a market value and an unrealized gain *)
Definition position_of {num : Type} (mv pnl : num) : Position num :=
  {| symbol := "AAPL"; marketValue := mv; unrealizedPnL := pnl; allocation := mv |}.

(* a short position worth -100 with a gain of 10; a position whose whole
   value of 100 is gain; a position bought at 10000 and now worth 11000;
   and the three positions of the total-value test *)
Definition short_position {num : Type} `{Number num} : list (Position num) :=
  [position_of (of_Z (-100)) (of_Z 10)].
Definition free_position {num : Type} `{Number num} : list (Position num) :=
  [position_of (of_Z 100) (of_Z 100)].
Definition gaining_position {num : Type} `{Number num} : list (Position num) :=
  [position_of (of_Z 11000) (of_Z 1000)].
Definition three_positions {num : Type} `{Number num} : list (Position num) :=
  [position_of (of_Z 10000) (of_Z 500); position_of (of_Z 20000) (of_Z (-200));
   position_of (of_Z 15000) (of_Z 1000)].

Definition closed_trade {num : Type} (i : string) (pct : num) : Trade.t num :=
  {| Trade.id := i; Trade.symbol := "AAPL"; Trade.pnl := None;
     Trade.pnlPercent := Some pct; Trade.status := status_closed |}.

(* three closed trades with pnlPercent 10, -10 and 20 *)
Definition three_trades {num : Type} `{Number num} : list (Trade.t num) :=
  [closed_trade "1" (of_Z 10); closed_trade "2" (of_Z (-10));
   closed_trade "3" (of_Z 20)].

(* one closed trade with pnlPercent 5 *)
Definition one_trade {num : Type} `{Number num} : list (Trade.t num) :=
  [closed_trade "1" (of_Z 5)].

(* expect(x).toBeCloseTo(target, 1): |x - target| < 0.05 *)
Definition close_to (x target : float) : bool :=
  PrimFloat.ltb (PrimFloat.abs (x - target)) (5 / 100)%float.

(* five bars closing at 1, 3, 2, 5, 4 *)
Definition zigzag_bars {num : Type} `{Number num} : list (PriceBar num) :=
  map (fun c => bar_of "2024-01-02T00:00:00Z" (of_Z c)) [1; 3; 2; 5; 4]%Z.

(* 36 bars closing at 1, 2, ..., 36 *)
Definition long_bars : list (PriceBar float) :=
  map (bar_of "2024-01-02T00:00:00Z") (rising_closes 36).

(** * Properties *)

Unset Implicit Arguments.

(** ** Loops over arrays *)

Section LoopFacts.
Context {A S : Type}.

Lemma fold_left_push (f : nat -> A) (l : list nat) (r0 : list A) :
  fold_left (fun r i => r ++ [f i]) l r0 = r0 ++ map f l.
Proof.
  revert r0; induction l as [|i l IH]; intros r0; simpl.
  - now rewrite app_nil_r.
  - rewrite IH, <- app_assoc. reflexivity.
Qed.

Lemma for_range_push (lo hi : nat) (f : nat -> A) (r0 : list A) :
  for_range lo hi (fun i r => r ++ [f i]) r0 = r0 ++ map f (seq lo (hi - lo)).
Proof. apply fold_left_push. Qed.

Lemma fold_left_over_map (g : nat -> A) (f : A -> S -> S) (l : list nat) (s0 : S) :
  fold_left (fun s i => f (g i) s) l s0 = fold_left (fun s x => f x s) (map g l) s0.
Proof.
  revert s0; induction l as [|i l IH]; intros s0; simpl; [reflexivity | apply IH].
Qed.

Lemma nth_seq_skipn (d : A) (l : list A) (lo : nat) :
  map (fun i => nth i l d) (seq lo (length l - lo)) = skipn lo l.
Proof.
  revert lo; induction l as [|a l IH]; intros lo.
  - destruct lo; reflexivity.
  - destruct lo as [|lo].
    + simpl. f_equal. rewrite <- seq_shift, map_map.
      specialize (IH 0%nat). rewrite Nat.sub_0_r in IH. simpl in IH. exact IH.
    + simpl. rewrite <- seq_shift, map_map. apply IH.
Qed.

End LoopFacts.

Lemma firstn_seq (n start len : nat) :
  firstn n (seq start len) = seq start (Nat.min n len).
Proof.
  revert start len; induction n as [|n IH]; intros start [|len]; simpl;
    try reflexivity.
  now rewrite IH.
Qed.

Section SliceFacts.
Context {A : Type}.

Lemma slice_length (a b : nat) (l : list A) :
  b <= length l -> length (slice a b l) = b - a.
Proof.
  intros Hb. unfold slice. rewrite length_firstn, length_skipn. lia.
Qed.

Lemma slice_nth (d : A) (a b i : nat) (l : list A) :
  i < b - a -> nth i (slice a b l) d = nth (a + i) l d.
Proof.
  intros Hi. unfold slice. rewrite nth_firstn.
  destruct (Nat.ltb_spec i (b - a)); [|lia].
  rewrite nth_skipn. reflexivity.
Qed.

Lemma slice_skipn (n a b : nat) (l : list A) :
  skipn n (slice a b l) = slice (a + n) b l.
Proof.
  unfold slice. rewrite skipn_firstn_comm, skipn_skipn.
  f_equal; [lia | f_equal; lia].
Qed.

End SliceFacts.

Lemma fold_left_invariant {S B : Type} (P : S -> Prop) (f : S -> B -> S)
    (l : list B) (s : S) :
  (forall x s, In x l -> P s -> P (f s x)) -> P s -> P (fold_left f l s).
Proof.
  revert s; induction l as [|x l IH]; intros s Hstep Hs; simpl; [exact Hs|].
  apply IH.
  - intros y s' Hy. apply Hstep. now right.
  - apply Hstep; [now left | exact Hs].
Qed.

(** ** The exact instance *)

Ltac js_R :=
  cbn [of_Z nadd nsub nmul ndiv nsqrt nround nltb nleb neqb R_Number] in *.

Lemma Rltb_true (a b : R) : (a < b)%R -> Rltb a b = true.
Proof. intros Hab. unfold Rltb. destruct (Rlt_dec a b); [reflexivity | contradiction]. Qed.

Lemma Rltb_false (a b : R) : (b <= a)%R -> Rltb a b = false.
Proof. intros Hab. unfold Rltb. destruct (Rlt_dec a b); [lra | reflexivity]. Qed.

Lemma Rleb_true (a b : R) : (a <= b)%R -> Rleb a b = true.
Proof. intros Hab. unfold Rleb. destruct (Rle_dec a b); [reflexivity | contradiction]. Qed.

Lemma Rleb_false (a b : R) : (b < a)%R -> Rleb a b = false.
Proof. intros Hab. unfold Rleb. destruct (Rle_dec a b); [lra | reflexivity]. Qed.

Lemma Reqb_true (a b : R) : a = b -> Reqb a b = true.
Proof. intros Hab. unfold Reqb. destruct (Req_dec_T a b); [reflexivity | contradiction]. Qed.

Lemma Reqb_false (a b : R) : a <> b -> Reqb a b = false.
Proof. intros Hab. unfold Reqb. destruct (Req_dec_T a b); [contradiction | reflexivity]. Qed.

Lemma Reqb_eq (a b : R) : Reqb a b = true <-> a = b.
Proof.
  unfold Reqb. destruct (Req_dec_T a b) as [Heq|Hne]; split; intros Hab;
    solve [reflexivity | assumption | discriminate | contradiction].
Qed.

Section GenericFacts.
Context {num : Type} `{Number num}.
Local Open Scope js_scope.

Lemma for_range_walk (f : num -> num -> num) (data : list num) (lo : nat) (s0 : num) :
  for_range lo (length data) (fun i s => f (get data i) s) s0
  = fold_left (fun s x => f x s) (skipn lo data) s0.
Proof.
  unfold for_range, get.
  rewrite (fold_left_over_map (fun i => nth i data (of_Z 0)) f).
  now rewrite nth_seq_skipn.
Qed.

Lemma calculateEMA_spec (data : list num) (period : nat) :
  calculateEMA data period = ema_spec data period.
Proof.
  unfold calculateEMA, ema_spec, ema_walk.
  destruct (length data <? period)%nat; [reflexivity|].
  f_equal. rewrite (for_range_walk (fun x ema => (x - ema) * _ + ema)).
  unfold slice. now rewrite Nat.sub_0_r.
Qed.

Lemma calculateEMAForSeries_walk (data : list num) (period : nat) :
  calculateEMAForSeries data period
  = ema_walk (of_Z 2 / (of_nat period + of_Z 1)) (get data 0) (skipn 1 data).
Proof.
  unfold calculateEMAForSeries, ema_walk.
  now rewrite (for_range_walk (fun x ema => (x - ema) * _ + ema)).
Qed.

End GenericFacts.

(** ** The repository's tests, run on the embedding in binary64 *)

Example test_drawdown_series :
  match map (@drawdown float) (calculateDrawdownSeries sample_curve) with
  | [Some d0; Some d1; Some d2; Some d3; Some d4] =>
      PrimFloat.eqb d0 0 && PrimFloat.eqb d1 0 && close_to d2 (- (909 / 100))
      && close_to d3 (- (455 / 100)) && PrimFloat.eqb d4 0
  | _ => false
  end = true.
Proof. vm_compute. reflexivity. Qed.

Example test_portfolio_totals :
  totalValue (calculatePortfolioMetrics (@three_positions float _)) = 45000%float /\
  totalPnL (calculatePortfolioMetrics (@three_positions float _)) = 1300%float /\
  close_to (totalPnLPercent (calculatePortfolioMetrics (@gaining_position float _))) 10
  = true /\
  calculatePortfolioMetrics (@nil (Position float))
  = {| totalValue := 0%float; totalPnL := 0%float; totalPnLPercent := 0%float |}.
Proof. vm_compute. repeat split; reflexivity. Qed.

Example test_diversification_scores :
  calculateDiversificationScore (@nil (Position float)) = 0%float /\
  calculateDiversificationScore [holding 100%float] = 0%float /\
  calculateDiversificationScore (@even_split float _) = 100%float /\
  calculateDiversificationScore (@concentrated float _) = 46%float.
Proof. vm_compute. repeat split; reflexivity. Qed.

Example test_trade_distribution :
  close_to (Distribution.winRate (analyzeTradeDistribution (@three_trades float _)))
           (6667 / 100) = true /\
  Distribution.avgWin (analyzeTradeDistribution (@three_trades float _)) = 15%float /\
  Distribution.avgLoss (analyzeTradeDistribution (@three_trades float _)) = (-10)%float /\
  Distribution.bins (analyzeTradeDistribution (@nil (Trade.t float))) = [].
Proof. vm_compute. repeat split; reflexivity. Qed.

Example test_compare_strategies :
  map (fun row => (Comparison.metric row,
                   map (@Comparison.best float) (Comparison.values row)))
      (compareBacktestMetrics [@strategy_A float _; strategy_B])
  = [("Total Return (%)"%string, [true; false]);
     ("Annualized Return (%)"%string, [true; false]);
     ("Sharpe Ratio"%string, [true; false]);
     ("Max Drawdown (%)"%string, [false; true]);
     ("Win Rate (%)"%string, [true; false]);
     ("Profit Factor"%string, [true; false])] /\
  compareBacktestMetrics (@nil (BacktestResult.t float)) = [].
Proof. vm_compute. split; reflexivity. Qed.

Example test_series_lengths :
  option_map (@length _) (generateIndicatorSeries rising_bars 12 Sma) = Some 5 /\
  generateRSISeries (firstn 10 rising_bars) 14 = [] /\
  calculateSMA (rising_closes 16) 50 = None /\
  calculateRollingMetrics (firstn 2 (@sample_curve float _)) 3 = [].
Proof. vm_compute. repeat split; reflexivity. Qed.

Section IndicatorSeries.
Context {num : Type} `{Number num}.

(** C2 (as the code has it): for 1 <= p <= length bars,
    generateIndicatorSeries(bars, p, 'ema') has one point per bar from index
    p - 1 on; point k is dated at bar k + p - 1 and its value is the EMA
    recurrence with multiplier 2/(p+1) seeded with the close of bar k, the
    first close of the trailing p-bar window, and walked over the other
    p - 1 closes of that window. *)
Theorem generateIndicatorSeries_ema_window (bars : list (PriceBar num)) (p : nat) :
  1 <= p <= length bars ->
  exists pts,
    generateIndicatorSeries bars p Ema = Some pts /\
    length pts = length bars + 1 - p /\
    forall k, k < length pts ->
      nth_error pts k =
        Some {| time := bar_date bars (k + p - 1);
                value := ema_walk (of_Z 2 / (of_nat p + of_Z 1))%js
                           (get (map (@close num) bars) k)
                           (slice (k + 1) (k + p) (map (@close num) bars)) |}.
Proof.
  intros [Hp Hlen]. destruct p as [|p']; [lia|].
  eexists; split; [reflexivity|].
  rewrite for_range_push. cbn [app].
  rewrite length_map, length_seq, length_map.
  split; [lia|]. intros k Hk.
  rewrite nth_error_map, nth_error_seq.
  destruct (Nat.ltb_spec k (length bars - (S p' - 1))) as [_|Hge]; [|lia].
  cbn [option_map]. f_equal.
  replace (S p' - 1 + k) with (k + S p' - 1) by lia.
  f_equal.
  rewrite calculateEMAForSeries_walk.
  replace (k + S p' - 1 + 1 - S p') with k by lia.
  replace (k + S p' - 1 + 1) with (k + S p') by lia.
  rewrite slice_skipn. unfold get at 1.
  rewrite slice_nth by lia. rewrite Nat.add_0_r. reflexivity.
Qed.

End IndicatorSeries.

Lemma generateIndicatorSeries_ema_window_witness :
  1 <= 2 <= length three_bars /\
  exists pts,
    generateIndicatorSeries three_bars 2 Ema = Some pts /\
    length pts = length three_bars + 1 - 2 /\
    forall k, k < length pts ->
      nth_error pts k =
        Some {| time := bar_date three_bars (k + 2 - 1);
                value := ema_walk (of_Z 2 / (of_nat 2 + of_Z 1))%js
                           (get (map (@close float) three_bars) k)
                           (slice (k + 1) (k + 2) (map (@close float) three_bars)) |}.
Proof.
  split; [simpl; lia | apply (generateIndicatorSeries_ema_window three_bars 2); simpl; lia].
Defined.

(** C2 fails as stated: on closes 1, 2, 3 with p = 2 the EMA series is
    [(2-1)*(2/3)+1; (3-2)*(2/3)+2], and its last point differs from
    calculateEMA over the three closes, which is (3 - 1.5)*(2/3) + 1.5 = 2.5. *)
Lemma ema_series_last_point_differs :
  exists pts v e,
    generateIndicatorSeries three_bars 2 Ema = Some pts /\
    option_map (@value float) (nth_error pts (length pts - 1)) = Some v /\
    calculateEMA (map (@close float) three_bars) 2 = Some e /\
    PrimFloat.eqb e 2.5 = true /\
    PrimFloat.eqb v e = false.
Proof.
  do 3 eexists. repeat split; vm_compute; reflexivity.
Qed.

Section MACD.
Context {num : Type} `{Number num}.

Lemma fold_left_third_length (f : nat -> num * num * list num -> num * num * list num)
    (l : list nat) (s : num * num * list num) :
  (forall i a b mv, length (snd (f i (a, b, mv))) = Datatypes.S (length mv)) ->
  length (snd (fold_left (fun s i => f i s) l s)) = length (snd s) + length l.
Proof.
  intros Hf. revert s; induction l as [|i l IH]; intros s; simpl; [lia|].
  rewrite IH. destruct s as [[a b] mv]. rewrite Hf. simpl. lia.
Qed.

Lemma calculateEMA_defined (data : list num) (period : nat) :
  period <= length data -> exists e, calculateEMA data period = Some e.
Proof.
  intros Hlen. unfold calculateEMA.
  destruct (Nat.ltb_spec (length data) period); [lia | eauto].
Qed.

Lemma calculateEMA_undefined (data : list num) (period : nat) :
  length data < period -> calculateEMA data period = None.
Proof.
  intros Hlen. unfold calculateEMA.
  destruct (Nat.ltb_spec (length data) period); [reflexivity | lia].
Qed.

(* with fewer than 9 MACD values the signal falls back on the MACD line *)
Lemma calculateMACD_fallback (data : list num) :
  26 <= length data < 35 ->
  calculateMACD data =
    match calculateEMA data 12, calculateEMA data 26 with
    | Some ema12, Some ema26 =>
        Some {| macd := (ema12 - ema26)%js;
                signal := (ema12 - ema26)%js;
                histogram := ((ema12 - ema26) - (ema12 - ema26))%js |}
    | _, _ => None
    end.
Proof.
  intros [Hlo Hhi]. unfold calculateMACD.
  destruct (calculateEMA data 12) as [ema12|]; [|reflexivity].
  destruct (calculateEMA data 26) as [ema26|]; [|reflexivity].
  unfold for_range.
  match goal with
  | |- context [fold_left ?body ?l ?s0] =>
      pose proof (fold_left_third_length
                    (fun i s => body s i) l s0) as Hlen;
      destruct (fold_left body l s0) as [[e12 e26] mv]
  end.
  rewrite calculateEMA_undefined; [reflexivity|].
  cbn [snd length] in Hlen. rewrite length_seq in Hlen.
  rewrite Hlen; [lia|].
  intros i a b mv'. cbn. rewrite length_app. simpl. lia.
Qed.

(** C3 (as the code has it): with at least 26 and fewer than 35 closes,
    calculateMACD returns a record whose signal is the MACD line itself
    (the fallback of [calculateEMA(macdValues, 9) || macdLine]) and whose
    histogram is macdLine - macdLine. *)
Theorem calculateMACD_short_history (data : list num) :
  26 <= length data < 35 ->
  exists ema12 ema26,
    calculateEMA data 12 = Some ema12 /\
    calculateEMA data 26 = Some ema26 /\
    calculateMACD data =
      Some {| macd := (ema12 - ema26)%js;
              signal := (ema12 - ema26)%js;
              histogram := ((ema12 - ema26) - (ema12 - ema26))%js |}.
Proof.
  intros Hlen.
  destruct (calculateEMA_defined data 12) as [ema12 E12]; [lia|].
  destruct (calculateEMA_defined data 26) as [ema26 E26]; [lia|].
  exists ema12, ema26. repeat split; trivial.
  rewrite (calculateMACD_fallback data Hlen), E12, E26. reflexivity.
Qed.

End MACD.

(* in exact arithmetic the histogram of a short history is 0 *)
Lemma calculateMACD_short_history_histogram (data : list R) :
  26 <= length data < 35 ->
  option_map (@histogram R) (calculateMACD data) = Some 0%R.
Proof.
  intros Hlen. rewrite (@calculateMACD_fallback R R_Number data Hlen).
  destruct (@calculateEMA_defined R R_Number data 12) as [ema12 ->]; [lia|].
  destruct (@calculateEMA_defined R R_Number data 26) as [ema26 ->]; [lia|].
  cbn. f_equal. lra.
Qed.

Lemma calculateMACD_short_history_witness :
  26 <= length (rising_closes 26) < 35 /\
  exists ema12 ema26,
    calculateEMA (rising_closes 26) 12 = Some ema12 /\
    calculateEMA (rising_closes 26) 26 = Some ema26 /\
    calculateMACD (rising_closes 26) =
      Some {| macd := (ema12 - ema26)%js;
              signal := (ema12 - ema26)%js;
              histogram := ((ema12 - ema26) - (ema12 - ema26))%js |}.
Proof.
  split; [simpl; lia | apply (calculateMACD_short_history (rising_closes 26)); simpl; lia].
Defined.

(** C3 fails as stated: on the 26 closes 1, ..., 26 the signal and histogram
    readings are present, the signal being the MACD line 7 and the histogram 0. *)
Lemma calculateMACD_short_history_readings :
  option_map (@signal float) (calculateMACD (rising_closes 26)) = Some 7%float /\
  option_map (@histogram float) (calculateMACD (rising_closes 26)) = Some 0%float.
Proof. vm_compute. split; reflexivity. Qed.

(** ** RSI with a zero average loss *)

Section RSIZeroLoss.
Context {num : Type} `{Number num}.

(* calculateRSI returns 100 whenever the average loss it has computed is zero *)
Lemma calculateRSI_zero_loss (data : list num) (period : nat) :
  period + 1 <= length data ->
  (snd (rsi_averages data period) =? of_Z 0)%js = true ->
  calculateRSI data period = Some (of_Z 100).
Proof.
  intros Hlen Hzero. unfold calculateRSI.
  destruct (Nat.ltb_spec (length data) (period + 1)); [lia|].
  destruct (rsi_averages data period) as [avgGain avgLoss].
  cbn [snd] in Hzero. now rewrite Hzero.
Qed.

(* generateRSISeries pushes 100 - 100/(1 + 100) for a zero average loss *)
Lemma rsi_reading_zero_loss (avgGain avgLoss : num) :
  (avgLoss =? of_Z 0)%js = true ->
  rsi_reading avgGain avgLoss = (of_Z 100 - of_Z 100 / (of_Z 1 + of_Z 100))%js.
Proof. intros Hzero. unfold rsi_reading. now rewrite Hzero. Qed.

End RSIZeroLoss.

(* in exact arithmetic that reading is 10000/101, not 100 *)
Lemma rsi_reading_zero_loss_exact (avgGain : R) :
  rsi_reading avgGain 0%R = (10000 / 101)%R /\ rsi_reading avgGain 0%R <> 100%R.
Proof.
  assert (E : rsi_reading avgGain 0%R = (10000 / 101)%R).
  { rewrite rsi_reading_zero_loss by (apply Reqb_true; reflexivity).
    js_R. field. }
  split; [exact E | rewrite E; lra].
Qed.

Section RisingSeries.
Local Open Scope R_scope.

Lemma rsi_seed_rising (data : list R) (hi : nat) (s0 : R * R) :
  rising data -> (hi <= length data)%nat -> snd s0 = 0 ->
  snd (for_range 1 hi (rsi_seed_step data) s0) = 0.
Proof.
  intros Hup Hhi Hs0. unfold for_range.
  apply (fold_left_invariant (fun s : R * R => snd s = 0)); [|exact Hs0].
  intros i [gains losses] Hi Hs. apply in_seq in Hi.
  unfold rsi_seed_step. js_R.
  rewrite Rltb_true; [exact Hs|].
  specialize (Hup i ltac:(lia)). lra.
Qed.

Lemma rsi_smooth_rising (data : list R) (period : nat) (i : nat) (avgs : R * R) :
  rising data -> (1 <= i < length data)%nat -> snd avgs = 0 ->
  snd (rsi_smooth_step data period i avgs) = 0.
Proof.
  intros Hup Hi Hs. destruct avgs as [avgGain avgLoss]. cbn [snd] in Hs. subst.
  unfold rsi_smooth_step. js_R.
  rewrite Rltb_true by (specialize (Hup i Hi); lra).
  cbn [snd]. unfold Rdiv. now rewrite !Rmult_0_l.
Qed.

Lemma rsi_averages_rising (data : list R) (period : nat) :
  rising data -> (period + 1 <= length data)%nat ->
  snd (rsi_averages data period) = 0.
Proof.
  intros Hup Hlen. unfold rsi_averages.
  pose proof (rsi_seed_rising data (period + 1) (of_Z 0, of_Z 0) Hup Hlen eq_refl) as Hseed.
  destruct (for_range 1 (period + 1) (rsi_seed_step data) (of_Z 0, of_Z 0))
    as [gains losses].
  cbn [snd] in Hseed. subst losses. unfold for_range.
  apply (fold_left_invariant (fun s : R * R => snd s = 0)).
  - intros i avgs Hi Hs. apply in_seq in Hi.
    apply rsi_smooth_rising; [exact Hup | lia | exact Hs].
  - cbn [snd]. js_R. unfold Rdiv. apply Rmult_0_l.
Qed.

(** X27: for a period of at least 1, on every rising close series with at
    least period + 1 bars calculateRSI returns 100, while generateRSISeries
    is not empty and every one of its points is 100 - 100/101. *)
Lemma rising_series_rsi (bars : list (PriceBar R)) (period : nat) :
  (1 <= period)%nat ->
  rising (map (@close R) bars) -> (period + 1 <= length bars)%nat ->
  calculateRSI (map (@close R) bars) period = Some 100 /\
  generateRSISeries bars period <> [] /\
  Forall (fun pt => value pt = 10000 / 101) (generateRSISeries bars period).
Proof.
  intros _ Hup Hlen. split.
  - apply (@calculateRSI_zero_loss R R_Number); [now rewrite length_map|].
    apply Reqb_true. apply rsi_averages_rising; [exact Hup | now rewrite length_map].
  - unfold generateRSISeries. rewrite length_map.
    destruct (Nat.ltb_spec (length bars) (period + 1)); [lia|].
    pose proof (rsi_seed_rising (map (@close R) bars) (period + 1) (of_Z 0, of_Z 0) Hup
                  ltac:(now rewrite length_map) eq_refl) as Hseed.
    destruct (for_range 1 (period + 1) (rsi_seed_step (map (@close R) bars))
                (of_Z 0, of_Z 0)) as [gains losses].
    cbn [snd] in Hseed. subst losses.
    unfold for_range.
    match goal with
    | |- context [fold_left ?f ?l ?s0] =>
        assert (Hinv : snd (fst (fold_left f l s0)) = 0 /\
                       snd (fold_left f l s0) <> [] /\
                       Forall (fun pt => value pt = 10000 / 101)
                              (snd (fold_left f l s0)))
    end.
    { apply (fold_left_invariant
               (fun s : R * R * list (Point R) =>
                  snd (fst s) = 0 /\ snd s <> [] /\
                  Forall (fun pt => value pt = 10000 / 101) (snd s))).
      - intros i [avgs result] Hi (Hz & Hne & Hall). apply in_seq in Hi.
        cbn [fst snd] in *.
        assert (Hz' : snd (rsi_smooth_step (map (@close R) bars) period i avgs) = 0).
        { apply rsi_smooth_rising; [exact Hup | rewrite length_map; lia | exact Hz]. }
        split; [exact Hz'|]. split.
        + intros Hnil. apply app_eq_nil in Hnil. destruct Hnil; discriminate.
        + apply Forall_app. split; [exact Hall|].
          constructor; [|constructor]. cbn [value]. rewrite Hz'.
          apply rsi_reading_zero_loss_exact.
      - cbn [fst snd]. js_R. split; [unfold Rdiv; apply Rmult_0_l|].
        split; [discriminate|].
        constructor; [|constructor]. cbn [value].
        replace (0 / of_nat period) with 0 by (unfold Rdiv; now rewrite Rmult_0_l).
        apply rsi_reading_zero_loss_exact. }
    destruct Hinv as (_ & Hne & Hall). split; assumption.
Qed.

End RisingSeries.

(** C1: on the sixteen closes 1, 2, ..., 16 with period 14 every change is a
    gain, so the smoothed average loss is 0 at both readings: calculateRSI
    returns 100, and generateRSISeries emits 100 - 100/101 twice. *)
Theorem generateRSISeries_zero_loss_reading :
  snd (rsi_averages (map (@close float) rising_bars) 14) = 0%float /\
  calculateRSI (map (@close float) rising_bars) 14 = Some 100%float /\
  map (@value float) (generateRSISeries rising_bars 14) =
    [(100 - 100 / 101)%float; (100 - 100 / 101)%float] /\
  PrimFloat.ltb (100 - 100 / 101)%float 100%float = true.
Proof. vm_compute. repeat split; reflexivity. Qed.

(** ** EMA and SMA of a linear series *)

Section LinearSeries.
Variables a d : R.


Lemma sum_linear_from (k s : nat) (acc : R) :
  fold_left Rplus (map (linear_term a d) (seq s k)) acc
  = (acc + INR k * a + d * (INR k * INR s + INR k * (INR k - 1) / 2))%R.
Proof.
  revert s acc; induction k as [|k IH]; intros s acc.
  - simpl. lra.
  - cbn [seq map fold_left]. rewrite IH.
    unfold linear_term. rewrite !S_INR. field.
Qed.

Lemma sum_linear (k s : nat) :
  sum (map (linear_term a d) (seq s k))
  = (INR k * a + d * (INR k * INR s + INR k * (INR k - 1) / 2))%R.
Proof. unfold sum. js_R. rewrite sum_linear_from. lra. Qed.

Lemma ema_walk_linear (p k s : nat) (e : R) :
  e = (a + d * INR s - d - d * (INR p - 1) / 2)%R ->
  ema_walk (2 / (INR p + 1))%R e (map (linear_term a d) (seq s k))
  = (a + d * INR (s + k) - d - d * (INR p - 1) / 2)%R.
Proof.
  assert (Hp : (INR p + 1 <> 0)%R) by (pose proof (pos_INR p); lra).
  unfold ema_walk. revert s e; induction k as [|k IH]; intros s e He.
  - simpl. rewrite Nat.add_0_r. exact He.
  - cbn [seq map fold_left]. rewrite (IH (Datatypes.S s)).
    + f_equal. f_equal. f_equal. f_equal. f_equal. lia.
    + js_R. subst e. unfold linear_term. rewrite S_INR. field. exact Hp.
Qed.

Lemma calculateEMA_linear (n p : nat) :
  1 <= p <= n ->
  calculateEMA (map (linear_term a d) (seq 0 n)) p
  = Some (a + d * (INR n - 1) - d * (INR p - 1) / 2)%R.
Proof.
  intros [Hp Hn]. rewrite calculateEMA_spec. unfold ema_spec.
  rewrite length_map, length_seq.
  destruct (Nat.ltb_spec n p); [lia|]. f_equal.
  rewrite firstn_map, skipn_map, firstn_seq, skipn_seq.
  rewrite Nat.min_l by lia. rewrite sum_linear.
  unfold of_nat. js_R. rewrite <- INR_IZR_INZ.
  assert (Hp0 : (INR p <> 0)%R) by (apply not_0_INR; lia).
  rewrite (ema_walk_linear p (n - p) (0 + p)).
  - replace (0 + p + (n - p)) with n by lia. lra.
  - simpl (0 + p). simpl INR at 3. field. exact Hp0.
Qed.

Lemma calculateSMA_linear (n p : nat) :
  1 <= p <= n ->
  calculateSMA (map (linear_term a d) (seq 0 n)) p
  = Some (a + d * (INR n - 1) - d * (INR p - 1) / 2)%R.
Proof.
  intros [Hp Hn]. unfold calculateSMA.
  rewrite length_map, length_seq.
  destruct (Nat.ltb_spec n p); [lia|]. f_equal.
  unfold slice_last. destruct p as [|p']; [lia|].
  rewrite length_map, length_seq, skipn_map, skipn_seq.
  rewrite sum_linear.
  unfold of_nat. js_R. rewrite <- INR_IZR_INZ.
  replace (n - (n - Datatypes.S p')) with (Datatypes.S p') by lia.
  rewrite Nat.add_0_l, minus_INR by lia.
  assert (Hp0 : (INR (Datatypes.S p') <> 0)%R) by (apply not_0_INR; lia).
  field. exact Hp0.
Qed.

End LinearSeries.

Lemma uptrend_closes_linear (n : nat) :
  uptrend_closes n = map (fun i => (100 + / 2 * INR i)%R) (seq 0 n).
Proof.
  unfold uptrend_closes. apply map_ext. intros i.
  unfold of_nat. js_R. rewrite <- INR_IZR_INZ. lra.
Qed.

Lemma uptrend_EMA_exact (n p : nat) :
  1 <= p <= n ->
  calculateEMA (uptrend_closes n) p
  = Some (100 + / 2 * (INR n - 1) - / 2 * (INR p - 1) / 2)%R.
Proof. intros Hp. rewrite uptrend_closes_linear. now apply calculateEMA_linear. Qed.

Lemma uptrend_SMA_exact (n p : nat) :
  1 <= p <= n ->
  calculateSMA (uptrend_closes n) p
  = Some (100 + / 2 * (INR n - 1) - / 2 * (INR p - 1) / 2)%R.
Proof. intros Hp. rewrite uptrend_closes_linear. now apply calculateSMA_linear. Qed.

(** C10 (as the code has it): on the 252 closes 100, 100.5, 101, ... the
    12-period EMA and the 12-period SMA are the same number, 222.75, both in
    binary64 arithmetic and in exact arithmetic. *)
Theorem uptrend_EMA_equals_SMA :
  calculateEMA (uptrend_closes 252 : list float) 12 = Some 222.75%float /\
  calculateSMA (uptrend_closes 252 : list float) 12 = Some 222.75%float /\
  calculateEMA (uptrend_closes 252 : list R) 12 = Some (891 / 4)%R /\
  calculateSMA (uptrend_closes 252 : list R) 12 = Some (891 / 4)%R.
Proof.
  split; [vm_compute; reflexivity|].
  split; [vm_compute; reflexivity|].
  rewrite uptrend_EMA_exact, uptrend_SMA_exact by lia.
  replace (INR 252) with 252%R by (rewrite INR_IZR_INZ; reflexivity).
  replace (INR 12) with 12%R by (rewrite INR_IZR_INZ; reflexivity).
  split; f_equal; lra.
Qed.

(** C10 fails as stated: the EMA is not strictly greater than the SMA, in
    binary64 (the comparison sma < ema evaluates to false) and in exact
    arithmetic alike. *)
Lemma uptrend_EMA_not_above_SMA :
  (exists e s : float,
     calculateEMA (uptrend_closes 252) 12 = Some e /\
     calculateSMA (uptrend_closes 252) 12 = Some s /\
     PrimFloat.ltb s e = false) /\
  (exists e s : R,
     calculateEMA (uptrend_closes 252) 12 = Some e /\
     calculateSMA (uptrend_closes 252) 12 = Some s /\
     ~ (s < e)%R).
Proof.
  split.
  - exists 222.75%float, 222.75%float. repeat split; vm_compute; reflexivity.
  - exists (891 / 4)%R, (891 / 4)%R.
    rewrite uptrend_EMA_exact, uptrend_SMA_exact by lia.
    replace (INR 252) with 252%R by (rewrite INR_IZR_INZ; reflexivity).
    replace (INR 12) with 12%R by (rewrite INR_IZR_INZ; reflexivity).
    repeat split; solve [f_equal; lra | lra].
Qed.

(** ** Drawdown series *)

Section Drawdown.

Lemma calculateDrawdownSeries_fold (first : EquityPoint R) (rest : list (EquityPoint R)) :
  calculateDrawdownSeries (first :: rest)
  = snd (fold_left drawdown_step (first :: rest) (equity first, [])).
Proof. reflexivity. Qed.

Lemma drawdown_nonpositive (e pk : R) :
  (0 < pk)%R -> (e <= pk)%R -> ((e - pk) / pk * 100 <= 0)%R.
Proof.
  intros Hpk Hle. pose proof (Rinv_0_lt_compat pk Hpk) as Hinv.
  unfold Rdiv. nra.
Qed.

Lemma drawdown_run (e0 : R) (l : list (EquityPoint R)) :
  (0 < e0)%R ->
  let st := fold_left drawdown_step l (e0, []) in
  (0 < fst st)%R /\
  (forall p, In p l -> (equity p <= fst st)%R) /\
  (fst st = e0 \/ exists p, In p l /\ fst st = equity p) /\
  length (snd st) = length l /\
  forall i p, nth_error l i = Some p ->
    exists q d,
      nth_error (snd st) i = Some q /\
      date q = date p /\ equity q = equity p /\ benchmark q = benchmark p /\
      drawdown q = Some d /\ (d <= 0)%R /\
      (((e0 <= equity p)%R /\
        forall j pj, j < i -> nth_error l j = Some pj -> (equity pj <= equity p)%R) ->
       d = 0%R).
Proof.
  intros He0. induction l as [|x l IH] using rev_ind; cbn zeta.
  - simpl. repeat split; try lra; try tauto; try (left; reflexivity).
    intros i p Hi. destruct i; discriminate.
  - rewrite fold_left_app. cbn [fold_left].
    cbn zeta in IH.
    destruct (fold_left drawdown_step l (e0, [])) as [peak out].
    destruct IH as (Hpos & Hmax & Hwit & Hlen & Hpts).
    cbn [fst snd] in *. unfold drawdown_step. js_R.
    set (peak' := if Rltb peak (equity x) then equity x else peak).
    assert (Hpk' : (0 < peak' /\ peak <= peak' /\ equity x <= peak')%R
                   /\ (peak' = peak \/ peak' = equity x)).
    { unfold peak', Rltb. destruct (Rlt_dec peak (equity x)); split; try lra; tauto. }
    destruct Hpk' as ((Hpos' & Hmono & Hx) & Hcase).
    cbn [fst snd]. split; [exact Hpos'|]. split; [|split; [|split]].
    + intros p Hp. apply in_app_or in Hp. destruct Hp as [Hp|[Hp|[]]].
      * specialize (Hmax p Hp). lra.
      * subst p. exact Hx.
    + destruct Hcase as [Hc|Hc].
      * rewrite Hc. destruct Hwit as [Hw|(p & Hp & Hw)]; [now left|].
        right. exists p. split; [apply in_or_app; now left | exact Hw].
      * right. exists x. split; [apply in_or_app; right; now left | exact Hc].
    + rewrite !length_app, Hlen. reflexivity.
    + intros i p Hi.
      destruct (Nat.lt_ge_cases i (length l)) as [Hlt|Hge].
      * rewrite nth_error_app1 in Hi by exact Hlt.
        destruct (Hpts i p Hi) as (q & dd & Hq & Hd1 & Hd2 & Hd3 & Hdd & Hle & Hzero).
        exists q, dd. rewrite nth_error_app1 by lia.
        repeat split; trivial.
        intros [Hfirst Hprev]. apply Hzero. split; [exact Hfirst|].
        intros j pj Hj Hpj. apply (Hprev j pj Hj).
        rewrite nth_error_app1 by lia. exact Hpj.
      * rewrite nth_error_app2 in Hi by exact Hge.
        destruct (i - length l) as [|k] eqn:Ek; cbn in Hi;
          [|destruct k; discriminate].
        injection Hi as <-.
        eexists; eexists. rewrite nth_error_app2 by lia.
        replace (i - length out) with 0 by lia. cbn [nth_error].
        split; [reflexivity|]. cbn [date equity benchmark drawdown].
        repeat split; trivial.
        -- apply drawdown_nonpositive; assumption.
        -- intros [Hfirst Hprev].
           assert (Hpeak : (peak <= equity x)%R).
           { destruct Hwit as [Hw|(p & Hp & Hw)]; [lra|].
             rewrite Hw. destruct (In_nth_error _ _ Hp) as [j Hj].
             assert (Hjl : j < length l)
               by (apply nth_error_Some; rewrite Hj; discriminate).
             apply (Hprev j p); [lia|].
             rewrite nth_error_app1; [exact Hj | exact Hjl]. }
           assert (Heq : peak' = equity x) by (destruct Hcase; lra).
           rewrite Heq. unfold Rdiv. lra.
Qed.

End Drawdown.

(** C4 (as the code has it): for an equity curve whose first equity is
    positive, calculateDrawdownSeries keeps one point per input point with
    its date, equity and benchmark, every drawdown is <= 0, and the drawdown
    is 0 at the first point and at every index whose equity is at least
    every earlier equity. *)
Theorem calculateDrawdownSeries_nonpositive
    (first : EquityPoint R) (rest : list (EquityPoint R)) :
  (0 < equity first)%R ->
  length (calculateDrawdownSeries (first :: rest)) = length (first :: rest) /\
  forall i p, nth_error (first :: rest) i = Some p ->
    exists q d,
      nth_error (calculateDrawdownSeries (first :: rest)) i = Some q /\
      date q = date p /\ equity q = equity p /\ benchmark q = benchmark p /\
      drawdown q = Some d /\ (d <= 0)%R /\
      (i = 0 -> d = 0%R) /\
      ((forall j pj, j < i -> nth_error (first :: rest) j = Some pj ->
                     (equity pj <= equity p)%R) -> d = 0%R).
Proof.
  intros Hpos. rewrite calculateDrawdownSeries_fold.
  destruct (drawdown_run (equity first) (first :: rest) Hpos)
    as (_ & _ & _ & Hlen & Hpts).
  split; [exact Hlen|].
  intros i p Hi.
  destruct (Hpts i p Hi) as (q & d & Hq & Hd1 & Hd2 & Hd3 & Hd & Hle & Hzero).
  exists q, d. repeat split; trivial.
  - intros ->. apply Hzero. cbn in Hi. injection Hi as <-.
    split; [lra | intros j pj Hj; lia].
  - intros Hprev. apply Hzero. split; [|exact Hprev].
    destruct i as [|i'].
    + cbn in Hi. injection Hi as <-. lra.
    + apply (Hprev 0 first); [lia | reflexivity].
Qed.

Lemma calculateDrawdownSeries_nonpositive_witness :
  (0 < equity (equity_point "2023-01-01" 100%R))%R /\
  length (calculateDrawdownSeries
            (equity_point "2023-01-01" 100%R :: [equity_point "2023-01-02" 90%R]))
  = 2.
Proof.
  split; [simpl; lra|].
  apply (calculateDrawdownSeries_nonpositive
           (equity_point "2023-01-01" 100%R) [equity_point "2023-01-02" 90%R]).
  simpl; lra.
Defined.

(** C4 fails as stated: on the curve -100, -200 the peak stays at -100 and
    the second drawdown is (-200 - -100) / -100 * 100 = 100 > 0, in binary64
    and in exact arithmetic alike. *)
Lemma calculateDrawdownSeries_positive_drawdown :
  map (@drawdown float) (calculateDrawdownSeries negative_curve)
  = [Some (-0)%float; Some 100%float] /\
  exists d : R,
    map (@drawdown R) (calculateDrawdownSeries negative_curve) = [Some 0%R; Some d] /\
    d = 100%R /\ ~ (d <= 0)%R.
Proof.
  split; [vm_compute; reflexivity|].
  exists 100%R. split; [|split; lra].
  unfold negative_curve, calculateDrawdownSeries, equity_point.
  cbn. rewrite !Rltb_false by lra.
  f_equal; [f_equal; lra | f_equal; f_equal; lra].
Qed.

(** ** Strategy comparison *)

Section Comparison.
Local Open Scope string_scope.

Lemma max2_exact (a b : R) :
  (max2 a b = a /\ (b <= a)%R) \/ (max2 a b = b /\ (a < b)%R).
Proof.
  unfold max2, is_nan. js_R. rewrite !Reqb_true by reflexivity. cbn [negb].
  unfold Rltb. destruct (Rlt_dec a b); [right | left]; split; trivial; lra.
Qed.

Lemma fold_max2_maximum (xs : list R) (x : R) :
  is_maximum (fold_left max2 xs x) (x :: xs).
Proof.
  revert x; induction xs as [|y ys IH]; intros x; cbn [fold_left].
  - split; [now left | intros z [<-|[]]; lra].
  - destruct (IH (max2 x y)) as [Hin Hmax].
    assert (Hx : (x <= max2 x y)%R) by (destruct (max2_exact x y) as [[-> ?]|[-> ?]]; lra).
    assert (Hy : (y <= max2 x y)%R) by (destruct (max2_exact x y) as [[-> ?]|[-> ?]]; lra).
    split.
    + destruct Hin as [Hin|Hin].
      * rewrite <- Hin.
        destruct (max2_exact x y) as [[-> ?]|[-> ?]]; [now left | right; now left].
      * right; right; exact Hin.
    + intros z [<-|[<-|Hz]].
      * pose proof (Hmax (max2 x y) (or_introl eq_refl)). lra.
      * pose proof (Hmax (max2 x y) (or_introl eq_refl)). lra.
      * apply Hmax. now right.
Qed.

Lemma Math_max_maximum (l : list R) : l <> [] -> is_maximum (Math_max l) l.
Proof.
  destruct l as [|x xs]; [congruence|]. intros _. apply fold_max2_maximum.
Qed.

Lemma bestValue_tracked (k : MetricKey) (values : list (string * R)) :
  In k metrics -> bestValue k values = Math_max (map snd values).
Proof.
  intros Hk. unfold metrics in Hk. cbn in Hk.
  repeat (destruct Hk as [<-|Hk]; [reflexivity|]). contradiction.
Qed.

Lemma Forall2_map_right {A B : Type} (P : A -> B -> Prop) (f : A -> B) (l : list A) :
  (forall x, In x l -> P x (f x)) -> Forall2 P l (map f l).
Proof.
  induction l as [|x l IH]; intros HP; cbn; constructor.
  - apply HP. now left.
  - apply IH. intros y Hy. apply HP. now right.
Qed.

Lemma compareBacktestMetrics_rows (results : list (BacktestResult.t R)) :
  results <> [] ->
  Forall2 (row_marks_best results) metrics (compareBacktestMetrics results).
Proof.
  intros Hne. unfold compareBacktestMetrics.
  destruct results as [|r0 rs] eqn:Eres; [congruence|]. rewrite <- Eres in *.
  apply Forall2_map_right. intros k Hk.
  unfold row_marks_best. cbn [Comparison.values].
  rewrite (bestValue_tracked k _ Hk), !map_map. cbn [snd fst].
  eexists. split.
  - apply Math_max_maximum. rewrite Eres. discriminate.
  - apply Forall2_map_right. intros r _. cbn.
    repeat split; try reflexivity; apply Reqb_eq.
Qed.

(* the maxDrawdown row of two strategies drawing down 5 and 10 *)
Lemma compareBacktestMetrics_drawdown_5_10 (a b : BacktestResult.t R) :
  BacktestMetrics.maxDrawdown (BacktestResult.metrics a) = (-5)%R ->
  BacktestMetrics.maxDrawdown (BacktestResult.metrics b) = (-10)%R ->
  exists row,
    nth_error (compareBacktestMetrics [a; b]) 3 = Some row /\
    Comparison.metric row = "Max Drawdown (%)" /\
    map (@Comparison.best R) (Comparison.values row) = [true; false].
Proof.
  intros Ha Hb. eexists. split; [reflexivity|]. split; [reflexivity|].
  cbn. rewrite Ha, Hb.
  destruct (max2_exact (-5) (-10)) as [[-> _]|[_ Hlt]]; [|lra].
  rewrite Reqb_true by reflexivity. rewrite Reqb_false by lra. reflexivity.
Qed.

(** C5: for a non-empty list of backtest results, compareBacktestMetrics
    gives one row per tracked metric, in the order totalReturn,
    annualizedReturn, sharpeRatio, maxDrawdown, winRate, profitFactor; in
    each row there is one entry per strategy, and best is true exactly for
    the entries whose value equals the greatest value of that metric (for
    maxDrawdown too, the greatest being the one closest to zero), so ties
    are all marked; with maxDrawdown -5 against -10 the -5 strategy is the
    one marked. *)
Theorem compareBacktestMetrics_marks_best (results : list (BacktestResult.t R)) :
  results <> [] ->
  map (@Comparison.metric R) (compareBacktestMetrics results)
  = ["Total Return (%)"; "Annualized Return (%)"; "Sharpe Ratio";
     "Max Drawdown (%)"; "Win Rate (%)"; "Profit Factor"] /\
  Forall2 (row_marks_best results) metrics (compareBacktestMetrics results) /\
  (forall a b : BacktestResult.t R,
     BacktestMetrics.maxDrawdown (BacktestResult.metrics a) = (-5)%R ->
     BacktestMetrics.maxDrawdown (BacktestResult.metrics b) = (-10)%R ->
     exists row,
       nth_error (compareBacktestMetrics [a; b]) 3 = Some row /\
       Comparison.metric row = "Max Drawdown (%)" /\
       map (@Comparison.best R) (Comparison.values row) = [true; false]).
Proof.
  intros Hne. split; [|split].
  - destruct results; [congruence | reflexivity].
  - now apply compareBacktestMetrics_rows.
  - exact compareBacktestMetrics_drawdown_5_10.
Qed.

End Comparison.

Lemma compareBacktestMetrics_marks_best_witness :
  [@strategy_A R _; strategy_B] <> [] /\
  Forall2 (row_marks_best [strategy_A; strategy_B]) metrics
          (compareBacktestMetrics [strategy_A; strategy_B]).
Proof.
  split; [discriminate|].
  apply (compareBacktestMetrics_marks_best [strategy_A; strategy_B]).
  discriminate.
Defined.

(** ** Portfolio scoring *)

Section Sums.
Local Open Scope R_scope.

Lemma fold_left_total {A : Type} (f : A -> R) (l : list A) (acc : R) :
  fold_left (fun s x => (s + f x)%R) l acc = (acc + total (map f l))%R.
Proof.
  unfold total. revert acc; induction l as [|x l IH]; intros acc; cbn.
  - lra.
  - rewrite IH. lra.
Qed.

Lemma total_nonneg (l : list R) :
  (forall x, In x l -> (0 <= x)%R) -> (0 <= total l)%R.
Proof.
  unfold total. induction l as [|x l IH]; intros Hl; cbn; [lra|].
  pose proof (Hl x (or_introl eq_refl)).
  assert (0 <= fold_right Rplus 0 l)%R by (apply IH; intros y Hy; apply Hl; now right).
  lra.
Qed.

(* the squares of non-negative numbers sum to at most the square of their sum *)
Lemma total_squares_le (l : list R) :
  (forall x, In x l -> (0 <= x)%R) ->
  (total (map (fun x => x * x) l) <= total l * total l)%R.
Proof.
  induction l as [|x l IH]; intros Hl; [cbn; lra|].
  pose proof (Hl x (or_introl eq_refl)) as Hx.
  assert (Hl' : forall y, In y l -> (0 <= y)%R) by (intros y Hy; apply Hl; now right).
  pose proof (total_nonneg l Hl') as HT. specialize (IH Hl').
  unfold total in *. cbn. nra.
Qed.

Lemma total_deviations (m : R) (l : list R) :
  total (map (fun x => (x - m) * (x - m)) l)
  = (total (map (fun x => x * x) l) - 2 * m * total l + INR (length l) * (m * m))%R.
Proof.
  unfold total. induction l as [|x l IH]; [cbn; lra|].
  cbn [map fold_right length]. rewrite IH, S_INR. ring.
Qed.

Lemma total_deviations_nonneg (m : R) (l : list R) :
  (0 <= total (map (fun x => (x - m) * (x - m)) l))%R.
Proof.
  apply total_nonneg. intros y Hy. apply in_map_iff in Hy.
  destruct Hy as (x & <- & _). apply (Rle_0_sqr (x - m)).
Qed.

(* Cauchy-Schwarz against the constant vector *)
Lemma total_squares_ge (l : list R) :
  (total l * total l <= INR (length l) * total (map (fun x => x * x) l))%R.
Proof.
  destruct l as [|x0 l0] eqn:El; [cbn; lra|]. rewrite <- El.
  assert (Hn : (0 < INR (length l))%R) by (rewrite El; apply lt_0_INR; cbn; lia).
  set (n := INR (length l)) in *. set (T := total l).
  set (Q := total (map (fun x => x * x) l)).
  pose proof (total_deviations_nonneg (T / n) l) as Hdev.
  rewrite total_deviations in Hdev. fold T Q n in Hdev.
  assert (E : (Q - 2 * (T / n) * T + n * (T / n * (T / n)) = Q - T * T / n)%R)
    by (field; lra).
  rewrite E in Hdev.
  assert (Hq : (T * T / n <= Q)%R) by lra.
  apply (Rmult_le_compat_l n) in Hq; [|lra].
  replace (n * (T * T / n))%R with (T * T)%R in Hq by (field; lra).
  exact Hq.
Qed.

End Sums.

Lemma Rround_bounds (lo hi : Z) (r : R) :
  (IZR lo <= r <= IZR hi)%R -> (IZR lo <= Rround r <= IZR hi)%R.
Proof.
  intros [Hlo Hhi]. unfold Rround.
  destruct (base_Int_part (r + / 2)) as [Hle Hgt].
  split; apply IZR_le.
  - assert (H : (IZR (lo - 1) < IZR (Int_part (r + / 2)))%R)
      by (rewrite minus_IZR; lra).
    apply lt_IZR in H. lia.
  - assert (H : (IZR (Int_part (r + / 2)) < IZR (hi + 1))%R)
      by (rewrite plus_IZR; lra).
    apply lt_IZR in H. lia.
Qed.

Lemma Rround_integer (z : Z) : Rround (IZR z) = IZR z.
Proof.
  unfold Rround. f_equal. symmetry. apply Int_part_spec. lra.
Qed.

Section Diversification.
Local Open Scope R_scope.

Lemma total_map_div {A : Type} (f : A -> R) (c : R) (l : list A) :
  total (map (fun x => f x / c) l) = total (map f l) / c.
Proof.
  unfold total. induction l as [|x l IH]; cbn; [lra|]. rewrite IH. lra.
Qed.

(* the Herfindahl index of shares that are non-negative and sum to 1 *)
Lemma herfindahl_bounds (shares : list R) :
  (length shares >= 2)%nat ->
  (forall x, In x shares -> 0 <= x) ->
  total shares = 1 ->
  / INR (length shares) <= total (map (fun x => x * x) shares) <= 1.
Proof.
  intros Hlen Hpos Hsum.
  assert (Hn : 0 < INR (length shares)) by (apply lt_0_INR; lia).
  pose proof (total_squares_le shares Hpos) as Hle.
  pose proof (total_squares_ge shares) as Hge.
  rewrite Hsum in Hle, Hge. split; [|lra].
  apply (Rmult_le_reg_l (INR (length shares))); [exact Hn|].
  rewrite Rinv_r by lra. lra.
Qed.

(* Where the score does stay on its scale: in exact arithmetic, for
   positions whose allocations are non-negative and sum to 100 percent the
   score lies in [0, 100]. *)
Lemma calculateDiversificationScore_bounds (positions : list (Position R)) :
  (forall p, In p positions -> 0 <= allocation p) ->
  total (map (@allocation R) positions) = 100 ->
  0 <= calculateDiversificationScore positions <= 100.
Proof.
  intros Hpos Hsum. unfold calculateDiversificationScore.
  destruct (length positions) as [|[|n]] eqn:Hn; js_R; [lra | lra |].
  rewrite <- Hn. apply (Rround_bounds 0 100).
  unfold pow2, of_nat. js_R.
  rewrite (fold_left_total (fun p => allocation p / 100 * (allocation p / 100))).
  rewrite <- INR_IZR_INZ.
  set (shares := map (fun p : Position R => allocation p / 100) positions).
  assert (Hq : total (map (fun p : Position R =>
                             allocation p / 100 * (allocation p / 100)) positions)
               = total (map (fun x => x * x) shares)).
  { unfold shares. now rewrite map_map. }
  rewrite Hq.
  assert (Hlen : length shares = length positions)
    by (unfold shares; apply length_map).
  destruct (herfindahl_bounds shares) as [Hlo Hhi].
  + rewrite Hlen, Hn. lia.
  + intros x Hx. unfold shares in Hx. apply in_map_iff in Hx.
    destruct Hx as (p & <- & Hp). specialize (Hpos p Hp). lra.
  + unfold shares. rewrite (total_map_div (@allocation R)), Hsum. lra.
  + rewrite Hlen in Hlo.
    assert (Hn2 : 2 <= INR (length positions)).
    { rewrite Hn. rewrite !S_INR. pose proof (pos_INR n). lra. }
    set (Q := total (map (fun x => x * x) shares)) in *.
    set (m := INR (length positions)) in *.
    assert (Hinv : / m <= / 2) by (apply Rinv_le_contravar; lra).
    assert (Hinv0 : 0 < / m) by (apply Rinv_0_lt_compat; lra).
    assert (Hden : 0 < 1 - 1 / m) by lra.
    assert (Hfrac : 0 <= (0 + Q) - 0 /\ 0 <= (1 - (0 + Q)) / (1 - 1 / m) <= 1).
    { split; [lra|]. split.
      - apply Rmult_le_pos; [lra|]. left. now apply Rinv_0_lt_compat.
      - apply (Rmult_le_reg_r (1 - 1 / m)); [exact Hden|].
        unfold Rdiv at 1. rewrite Rmult_assoc, Rinv_l by lra. lra. }
    lra.
Qed.

End Diversification.

Section FewPositions.
Context {num : Type} `{Number num}.

(* with no position or a single one the score is 0, in every number model *)
Lemma calculateDiversificationScore_few (positions : list (Position num)) :
  length positions <= 1 -> calculateDiversificationScore positions = of_Z 0.
Proof.
  intros Hlen. unfold calculateDiversificationScore.
  destruct (length positions) as [|[|n]]; [reflexivity | reflexivity | lia].
Qed.

End FewPositions.

(** C6: the score leaves the 0-100 scale that the code's comment and its
    test promise.  Two positions of 10 percent each score
    (1 - 0.02) / (1 - 1/2) * 100 = 196, the two sample positions at 16.8 and
    6.6 percent score 193, and two positions of 100 percent each score -200,
    although every allocation lies between 0 and 100. *)
Theorem calculateDiversificationScore_out_of_range :
  calculateDiversificationScore (@two_tenths float _) = 196%float /\
  calculateDiversificationScore cash_heavy = 193%float /\
  calculateDiversificationScore (@two_wholes float _) = (-200)%float /\
  calculateDiversificationScore (@two_tenths R _) = 196%R /\
  calculateDiversificationScore (@two_wholes R _) = (-200)%R.
Proof.
  split; [vm_compute; reflexivity|].
  split; [vm_compute; reflexivity|].
  split; [vm_compute; reflexivity|].
  split.
  - cbn. unfold pow2. js_R. rewrite <- (Rround_integer 196). f_equal. field.
  - cbn. unfold pow2. js_R. rewrite <- (Rround_integer (-200)). f_equal. field.
Qed.

Section PortfolioMetrics.
Local Open Scope R_scope.

(** C7 (as the code has it): calculatePortfolioMetrics returns totalValue =
    the sum of marketValue and totalPnL = the sum of unrealizedPnL;
    totalPnLPercent is 0 whenever totalValue <= 0; and when totalValue > 0
    and the implied cost basis totalValue - totalPnL is not zero,
    totalPnLPercent is totalPnL / (totalValue - totalPnL) * 100, so that
    totalPnLPercent times the cost basis is totalPnL * 100. *)
Theorem calculatePortfolioMetrics_values (positions : list (Position R)) :
  totalValue (calculatePortfolioMetrics positions)
  = total (map (@marketValue R) positions) /\
  totalPnL (calculatePortfolioMetrics positions)
  = total (map (@unrealizedPnL R) positions) /\
  (0 < total (map (@marketValue R) positions) ->
   total (map (@marketValue R) positions) <> total (map (@unrealizedPnL R) positions) ->
   totalPnLPercent (calculatePortfolioMetrics positions)
   = total (map (@unrealizedPnL R) positions)
     / (total (map (@marketValue R) positions) - total (map (@unrealizedPnL R) positions))
     * 100) /\
  (total (map (@marketValue R) positions) <= 0 ->
   totalPnLPercent (calculatePortfolioMetrics positions) = 0) /\
  (0 < total (map (@marketValue R) positions) ->
   total (map (@marketValue R) positions) <> total (map (@unrealizedPnL R) positions) ->
   totalPnLPercent (calculatePortfolioMetrics positions)
   * (total (map (@marketValue R) positions) - total (map (@unrealizedPnL R) positions))
   = total (map (@unrealizedPnL R) positions) * 100).
Proof.
  unfold calculatePortfolioMetrics. cbn [totalValue totalPnL totalPnLPercent]. js_R.
  rewrite (fold_left_total (@marketValue R)), (fold_left_total (@unrealizedPnL R)).
  rewrite !Rplus_0_l.
  set (V := total (map (@marketValue R) positions)).
  set (P := total (map (@unrealizedPnL R) positions)).
  repeat split.
  - intros HV _. now rewrite Rltb_true.
  - intros HV. now rewrite Rltb_false.
  - intros HV Hne. rewrite Rltb_true by exact HV. field. lra.
Qed.

End PortfolioMetrics.

Lemma calculatePortfolioMetrics_values_witness :
  ((0 < total (map (@marketValue R) gaining_position))%R /\
   total (map (@marketValue R) gaining_position)
   <> total (map (@unrealizedPnL R) gaining_position)) /\
  totalPnLPercent (calculatePortfolioMetrics (@gaining_position R _))
  = (total (map (@unrealizedPnL R) gaining_position)
     / (total (map (@marketValue R) gaining_position)
        - total (map (@unrealizedPnL R) gaining_position))
     * 100)%R.
Proof.
  assert (Hpos : (0 < total (map (@marketValue R) gaining_position))%R) by (cbn; lra).
  assert (Hne : total (map (@marketValue R) gaining_position)
                <> total (map (@unrealizedPnL R) gaining_position)) by (cbn; lra).
  split; [split; [exact Hpos | exact Hne]|].
  apply (calculatePortfolioMetrics_values gaining_position); [exact Hpos | exact Hne].
Defined.

(** C7 fails as stated: for one short position worth -100 with a gain of 10
    the total value is not 0, yet totalPnLPercent is 0 and not
    10 / (-100 - 10) * 100; and for one position whose value 100 is all gain,
    the quotient 100 / (100 - 100) * 100 is Infinity in binary64. *)
Lemma calculatePortfolioMetrics_guard_and_zero_basis :
  (totalValue (calculatePortfolioMetrics (@short_position R _)) = (-100)%R /\
   totalPnLPercent (calculatePortfolioMetrics (@short_position R _)) = 0%R /\
   (10 / (-100 - 10) * 100 <> 0)%R) /\
  calculatePortfolioMetrics (@short_position float _)
  = {| totalValue := (-100)%float; totalPnL := 10%float; totalPnLPercent := 0%float |} /\
  calculatePortfolioMetrics (@free_position float _)
  = {| totalValue := 100%float; totalPnL := 100%float; totalPnLPercent := infinity |}.
Proof.
  split; [|split; vm_compute; reflexivity].
  unfold calculatePortfolioMetrics, short_position, position_of.
  cbn. rewrite Rltb_false by lra. repeat split; lra.
Qed.

(** ** Rolling volatility and Sharpe ratio *)

Section RollingGuard.
Context {num : Type} `{Number num}.


End RollingGuard.

Section RollingMetrics.
Local Open Scope R_scope.

Lemma sum_total (l : list R) : sum l = total l.
Proof.
  unfold sum. js_R. rewrite (fold_left_total (fun x => x)), map_id. lra.
Qed.





End RollingMetrics.


(** ** Trade distribution *)

Section Counting.

Lemma count_cons_sum {A : Type} (g : nat -> A -> bool) (h : nat -> nat) (p : A)
    (idx : list nat) :
  list_sum (map (fun i => (if g i p then 1 else 0) + h i) idx)
  = length (filter (fun i => g i p) idx) + list_sum (map h idx).
Proof.
  unfold list_sum. induction idx as [|i idx IH]; [reflexivity|].
  cbn [map fold_right filter]. rewrite IH. destruct (g i p); cbn [length]; lia.
Qed.

(* counting per bin or per value gives the same total *)
Lemma count_swap {A : Type} (g : nat -> A -> bool) (idx : list nat) (l : list A) :
  list_sum (map (fun i => length (filter (g i) l)) idx)
  = list_sum (map (fun p => length (filter (fun i => g i p) idx)) l).
Proof.
  induction l as [|p l IH].
  - cbn. induction idx; [reflexivity | assumption].
  - cbn [map]. change (list_sum (?x :: ?r)) with (x + list_sum r). rewrite <- IH.
    rewrite <- (count_cons_sum g (fun i => length (filter (g i) l)) p idx).
    f_equal. apply map_ext. intros i. cbn [filter].
    destruct (g i p); reflexivity.
Qed.

Lemma filter_none {A : Type} (g : A -> bool) (l : list A) :
  (forall x, In x l -> g x = false) -> filter g l = [].
Proof.
  induction l as [|x l IH]; intros Hg; [reflexivity|].
  cbn. rewrite (Hg x) by now left. apply IH. intros y Hy. apply Hg. now right.
Qed.

Lemma filter_at_most_one (g : nat -> bool) (a n : nat) :
  (forall i j, a <= i < j -> j < a + n -> g i = true -> g j = true -> False) ->
  length (filter g (seq a n)) <= 1.
Proof.
  revert a; induction n as [|n IH]; intros a Hg; [cbn; lia|].
  cbn [seq filter]. destruct (g a) eqn:Ea.
  - rewrite filter_none; [cbn; lia|].
    intros j Hj. apply in_seq in Hj.
    destruct (g j) eqn:Ej; [|reflexivity].
    exfalso. apply (Hg a j); [lia | lia | exact Ea | exact Ej].
  - apply IH. intros i j Hij Hj. apply Hg; lia.
Qed.

Lemma list_sum_at_most_one {A : Type} (c : A -> nat) (l : list A) :
  (forall p, In p l -> c p <= 1) -> list_sum (map c l) <= length l.
Proof.
  induction l as [|p l IH]; intros Hc; [cbn; lia|].
  cbn [map length]. change (list_sum (?x :: ?r)) with (x + list_sum r).
  pose proof (Hc p (or_introl eq_refl)).
  assert (list_sum (map c l) <= length l)
    by (apply IH; intros q Hq; apply Hc; now right).
  lia.
Qed.

Lemma list_sum_misses_one {A : Type} (c : A -> nat) (l : list A) (m : A) :
  (forall p, In p l -> c p <= 1) -> In m l -> c m = 0 ->
  list_sum (map c l) < length l.
Proof.
  induction l as [|p l IH]; intros Hc Hm Hzero; [contradiction|].
  cbn [map length]. change (list_sum (?x :: ?r)) with (x + list_sum r).
  assert (Hl : forall q, In q l -> c q <= 1) by (intros q Hq; apply Hc; now right).
  destruct Hm as [->|Hm].
  - pose proof (list_sum_at_most_one c l Hl). lia.
  - pose proof (Hc p (or_introl eq_refl)). specialize (IH Hl Hm Hzero). lia.
Qed.

End Counting.

Section Histogram.
Local Open Scope R_scope.

Lemma min2_exact (a b : R) :
  (min2 a b = a /\ a <= b) \/ (min2 a b = b /\ b < a).
Proof.
  unfold min2, is_nan. js_R. rewrite !Reqb_true by reflexivity. cbn [negb].
  unfold Rltb. destruct (Rlt_dec b a); [right | left]; split; trivial; lra.
Qed.

Lemma fold_min2_le (xs : list R) (x : R) : fold_left min2 xs x <= x.
Proof.
  revert x; induction xs as [|y ys IH]; intros x; cbn [fold_left]; [lra|].
  specialize (IH (min2 x y)).
  destruct (min2_exact x y) as [[E ?]|[E ?]]; rewrite E in *; lra.
Qed.

Lemma Math_min_le_max (l : list R) : Math_min l <= Math_max l.
Proof.
  destruct l as [|x xs]; [cbn; lra|].
  pose proof (fold_min2_le xs x) as Hmin.
  destruct (fold_max2_maximum xs x) as [_ Hmax].
  specialize (Hmax x (or_introl eq_refl)). cbn [Math_min Math_max]. lra.
Qed.

(* the maximum lies in no bin *)
Lemma in_bin_maximum (lo hi : R) (i : nat) :
  lo <= hi -> (i < 20)%nat -> in_bin lo ((hi - lo) / 20) i hi = false.
Proof.
  intros Hle Hi. unfold in_bin. apply andb_false_iff. right.
  apply Rltb_false.
  assert (Hi' : INR i + 1 <= 20).
  { replace 20 with (INR 20) by (rewrite INR_IZR_INZ; reflexivity).
    rewrite <- S_INR. apply le_INR. lia. }
  nra.
Qed.

(* no value lies in two bins *)
Lemma in_bin_disjoint (lo size p : R) (i j : nat) :
  0 <= size -> (i < j)%nat ->
  in_bin lo size i p = true -> in_bin lo size j p = true -> False.
Proof.
  intros Hsize Hij Hi Hj. unfold in_bin in *.
  apply andb_true_iff in Hi. destruct Hi as [_ Hi].
  apply andb_true_iff in Hj. destruct Hj as [Hj _].
  unfold Rltb in Hi. destruct (Rlt_dec p (lo + INR i * size + size)); [|discriminate].
  unfold Rleb in Hj. destruct (Rle_dec (lo + INR j * size) p); [|discriminate].
  assert (Hij' : INR i + 1 <= INR j) by (rewrite <- S_INR; apply le_INR; lia).
  nra.
Qed.

(* the bins analyzeTradeDistribution builds from a non-empty set of closed trades *)
Lemma analyzeTradeDistribution_bins (trades : list (Trade.t R)) :
  filter is_closed trades <> [] ->
  Distribution.bins (analyzeTradeDistribution trades)
  = map (fun i =>
           {| Distribution.start :=
                Math_min (map pnlPercent_or0 (filter is_closed trades))
                + INR i * ((Math_max (map pnlPercent_or0 (filter is_closed trades))
                            - Math_min (map pnlPercent_or0 (filter is_closed trades)))
                           / 20);
              Distribution.count :=
                length (filter
                          (in_bin (Math_min (map pnlPercent_or0 (filter is_closed trades)))
                                  ((Math_max (map pnlPercent_or0 (filter is_closed trades))
                                    - Math_min (map pnlPercent_or0 (filter is_closed trades)))
                                   / 20) i)
                          (map pnlPercent_or0 (filter is_closed trades)));
              Distribution.isPositive :=
                Rleb 0 (Math_min (map pnlPercent_or0 (filter is_closed trades))
                        + INR i * ((Math_max (map pnlPercent_or0 (filter is_closed trades))
                                    - Math_min (map pnlPercent_or0 (filter is_closed trades)))
                                   / 20)) |})
        (seq 0 20).
Proof.
  intros Hne. unfold analyzeTradeDistribution.
  destruct (filter is_closed trades) as [|t ts] eqn:Ecl; [congruence|].
  cbn [Distribution.bins]. rewrite for_range_push. cbn [app].
  apply map_ext. intros i. unfold of_nat, in_bin. js_R.
  rewrite <- INR_IZR_INZ.
  replace (IZR (Z.of_nat 20)) with 20 by reflexivity.
  reflexivity.
Qed.

(* In exact arithmetic the histogram of any non-empty set of closed trades
   has 20 bins, tagged positive exactly when their start is >= 0, and the
   counts always sum to less than the number of closed trades: the greatest
   pnlPercent lies in no bin.  In binary64 the rounded bin edges can also
   let the last bin take the maximum, or leave a value between two bins. *)
Lemma analyzeTradeDistribution_undercounts (trades : list (Trade.t R)) :
  filter is_closed trades <> [] ->
  length (Distribution.bins (analyzeTradeDistribution trades)) = 20%nat /\
  Forall (fun b => Distribution.isPositive b = true <-> 0 <= Distribution.start b)
         (Distribution.bins (analyzeTradeDistribution trades)) /\
  (list_sum (map (@Distribution.count R)
               (Distribution.bins (analyzeTradeDistribution trades)))
   < length (filter is_closed trades))%nat.
Proof.
  intros Hne. rewrite (analyzeTradeDistribution_bins trades Hne).
  set (pnls := map pnlPercent_or0 (filter is_closed trades)).
  set (lo := Math_min pnls). set (hi := Math_max pnls).
  assert (Hle : lo <= hi) by apply Math_min_le_max.
  assert (Hsize : 0 <= (hi - lo) / 20) by lra.
  assert (Hpn : pnls <> []).
  { unfold pnls. destruct (filter is_closed trades); [congruence | discriminate]. }
  split; [now rewrite length_map, length_seq|]. split.
  - apply Forall_forall. intros b Hb. apply in_map_iff in Hb.
    destruct Hb as (i & <- & _). cbn [Distribution.isPositive Distribution.start].
    unfold Rleb. destruct (Rle_dec 0 (lo + INR i * ((hi - lo) / 20))); split;
      intros Hx; solve [reflexivity | assumption | discriminate | contradiction].
  - rewrite map_map. cbn [Distribution.count].
    rewrite (count_swap (in_bin lo ((hi - lo) / 20)) (seq 0 20) pnls).
    replace (length (filter is_closed trades)) with (length pnls)
      by (unfold pnls; apply length_map).
    apply (list_sum_misses_one _ pnls hi).
    + intros p _. apply filter_at_most_one.
      intros i j Hij _ Hi Hj. apply (in_bin_disjoint lo ((hi - lo) / 20) p i j);
        [exact Hsize | lia | exact Hi | exact Hj].
    + apply (Math_max_maximum pnls Hpn).
    + rewrite filter_none; [reflexivity|].
      intros i Hi. apply in_seq in Hi. apply in_bin_maximum; [exact Hle | lia].
Qed.

End Histogram.

(** C9: for the three closed trades with pnlPercent 10, -10 and 20 the
    histogram has 20 bins, each tagged positive exactly when its start is
    >= 0, but the last bin ends at the maximum and excludes it: the trade at
    20 is counted in no bin and the counts sum to 2, not 3.  A single closed
    trade gives 20 empty bins. *)
Theorem analyzeTradeDistribution_drops_maximum :
  length (filter is_closed (@three_trades float _)) = 3 /\
  length (Distribution.bins (analyzeTradeDistribution (@three_trades float _))) = 20 /\
  forallb (fun b => Bool.eqb (Distribution.isPositive b)
                             (PrimFloat.leb 0 (Distribution.start b)))
          (Distribution.bins (analyzeTradeDistribution (@three_trades float _)))
  = true /\
  map (@Distribution.count float)
      (Distribution.bins (analyzeTradeDistribution (@three_trades float _)))
  = [1; 0; 0; 0; 0; 0; 0; 0; 0; 0; 0; 0; 0; 1; 0; 0; 0; 0; 0; 0] /\
  list_sum (map (@Distribution.count float)
              (Distribution.bins (analyzeTradeDistribution (@three_trades float _))))
  = 2 /\
  list_sum (map (@Distribution.count float)
              (Distribution.bins (analyzeTradeDistribution (@one_trade float _))))
  = 0.
Proof. vm_compute. repeat split; reflexivity. Qed.

(** * Further properties of the helpers *)

(** ** Moving averages *)

Lemma in_firstn_in {A : Type} (n : nat) (l : list A) (x : A) :
  In x (firstn n l) -> In x l.
Proof.
  intros Hx. rewrite <- (firstn_skipn n l). apply in_or_app. now left.
Qed.

Lemma in_skipn_in {A : Type} (n : nat) (l : list A) (x : A) :
  In x (skipn n l) -> In x l.
Proof.
  intros Hx. rewrite <- (firstn_skipn n l). apply in_or_app. now right.
Qed.

Section MovingAverages.
Local Open Scope R_scope.

Lemma total_bounds (l : list R) (lo hi : R) :
  (forall x, In x l -> lo <= x <= hi) ->
  INR (length l) * lo <= total l <= INR (length l) * hi.
Proof.
  unfold total. induction l as [|x l IH]; intros Hl; [cbn; lra|].
  cbn [fold_right length]. rewrite S_INR.
  pose proof (Hl x (or_introl eq_refl)).
  assert (INR (length l) * lo <= fold_right Rplus 0 l <= INR (length l) * hi)
    by (apply IH; intros y Hy; apply Hl; now right).
  lra.
Qed.

Lemma mean_bounds (l : list R) (lo hi : R) :
  l <> [] -> (forall x, In x l -> lo <= x <= hi) -> lo <= mean l <= hi.
Proof.
  intros Hne Hl. pose proof (total_bounds l lo hi Hl) as [Hlo Hhi].
  assert (Hn : 0 < INR (length l)).
  { apply lt_0_INR. destruct l; [congruence | cbn; lia]. }
  unfold mean. split.
  - apply (Rmult_le_reg_l (INR (length l))); [exact Hn|].
    unfold Rdiv. rewrite <- Rmult_assoc, Rinv_r_simpl_m by lra. exact Hlo.
  - apply (Rmult_le_reg_l (INR (length l))); [exact Hn|].
    unfold Rdiv. rewrite <- Rmult_assoc, Rinv_r_simpl_m by lra. exact Hhi.
Qed.

Lemma calculateSMA_window (data : list R) (p : nat) :
  (1 <= p <= length data)%nat ->
  calculateSMA data p = Some (mean (skipn (length data - p) data)).
Proof.
  intros [Hp Hlen]. unfold calculateSMA.
  destruct (Nat.ltb_spec (length data) p); [lia|]. f_equal.
  unfold slice_last. destruct p as [|p']; [lia|].
  rewrite sum_total. unfold mean, of_nat. js_R.
  rewrite <- INR_IZR_INZ, length_skipn.
  do 2 f_equal. lia.
Qed.

(** X1: calculateSMA is absent when there are fewer than period values, and
    for 1 <= period <= length it is the arithmetic mean of the last period
    values. *)
Theorem calculateSMA_mean (data : list R) (p : nat) :
  ((length data < p)%nat -> calculateSMA data p = None) /\
  ((1 <= p <= length data)%nat ->
   calculateSMA data p = Some (mean (skipn (length data - p) data))).
Proof.
  split.
  - intros Hlt. unfold calculateSMA.
    destruct (Nat.ltb_spec (length data) p); [reflexivity | lia].
  - apply calculateSMA_window.
Qed.

(** X2: for 1 <= period <= length, calculateEMA lies between any bounds that
    hold for every value of the series: it never leaves the range of the data. *)
Theorem calculateEMA_bounded (data : list R) (p : nat) (lo hi : R) :
  (1 <= p <= length data)%nat ->
  (forall x, In x data -> lo <= x <= hi) ->
  exists e, calculateEMA data p = Some e /\ lo <= e <= hi.
Proof.
  intros [Hp Hlen] Hdata. rewrite calculateEMA_spec. unfold ema_spec.
  destruct (Nat.ltb_spec (length data) p); [lia|].
  eexists. split; [reflexivity|].
  assert (Hp1 : 1 <= INR p) by (replace 1 with (INR 1) by reflexivity; apply le_INR; lia).
  unfold ema_walk, of_nat. js_R. rewrite <- INR_IZR_INZ.
  apply (fold_left_invariant (fun e : R => lo <= e <= hi)).
  - intros x e Hx [Hlo Hhi].
    assert (Hxb : lo <= x <= hi).
    { apply Hdata. apply (in_skipn_in p data x Hx). }
    assert (Hm : 0 < 2 / (INR p + 1) <= 1).
    { split.
      - apply Rdiv_lt_0_compat; lra.
      - apply (Rmult_le_reg_r (INR p + 1)); [lra|].
        unfold Rdiv. rewrite Rmult_assoc, Rinv_l by lra. lra. }
    set (m := 2 / (INR p + 1)) in *. nra.
  - rewrite sum_total.
    assert (Hf : length (firstn p data) = p) by (rewrite length_firstn; lia).
    pose proof (mean_bounds (firstn p data) lo hi) as Hmean.
    unfold mean in Hmean. rewrite Hf in Hmean. apply Hmean.
    + destruct (firstn p data); [cbn in Hf; lia | discriminate].
    + intros x Hx. apply Hdata. apply (in_firstn_in p data x Hx).
Qed.

End MovingAverages.

Lemma calculateSMA_mean_witness :
  (1 <= 2 <= length [1%R; 2%R; 4%R])%nat /\
  calculateSMA [1%R; 2%R; 4%R] 2 = Some (mean (skipn (3 - 2) [1%R; 2%R; 4%R])).
Proof.
  split; [simpl; lia | apply (calculateSMA_mean [1%R; 2%R; 4%R] 2); simpl; lia].
Defined.

Lemma calculateEMA_bounded_witness :
  ((1 <= 2 <= length [1%R; 2%R; 4%R])%nat /\
   forall x, In x [1%R; 2%R; 4%R] -> (1 <= x <= 4)%R) /\
  exists e, calculateEMA [1%R; 2%R; 4%R] 2 = Some e /\ (1 <= e <= 4)%R.
Proof.
  assert (Hb : forall x, In x [1%R; 2%R; 4%R] -> (1 <= x <= 4)%R).
  { intros x Hx. cbn in Hx. repeat (destruct Hx as [<-|Hx]; [lra|]). contradiction. }
  split; [split; [simpl; lia | exact Hb]|].
  apply (calculateEMA_bounded [1%R; 2%R; 4%R] 2 1 4); [simpl; lia | exact Hb].
Defined.

Section EMAUpdate.
Context {num : Type} `{Number num}.

(** X3: appending one value to a series on which calculateEMA is defined
    moves the EMA by one step of the recurrence,
    ema' = (x - ema) * (2 / (period + 1)) + ema, in every number model. *)
Theorem calculateEMA_append (data : list num) (x : num) (p : nat) (e : num) :
  calculateEMA data p = Some e ->
  calculateEMA (data ++ [x]) p
  = Some ((x - e) * (of_Z 2 / (of_nat p + of_Z 1)) + e)%js.
Proof.
  rewrite !calculateEMA_spec. unfold ema_spec, ema_walk.
  rewrite length_app. cbn [length].
  destruct (Nat.ltb_spec (length data) p) as [Hlt|Hge]; [discriminate|].
  intros He. injection He as He.
  destruct (Nat.ltb_spec (length data + 1) p); [lia|]. f_equal.
  rewrite firstn_app, skipn_app.
  replace (p - length data) with 0 by lia.
  cbn [firstn skipn]. rewrite app_nil_r, fold_left_app. cbn [fold_left].
  now rewrite He.
Qed.

End EMAUpdate.

Lemma calculateEMA_append_witness :
  calculateEMA [1%float; 2%float; 3%float] 2 = Some 2.5%float /\
  calculateEMA ([1%float; 2%float; 3%float] ++ [7%float]) 2
  = Some ((7%float - 2.5%float) * (of_Z 2 / (of_nat 2 + of_Z 1)) + 2.5%float)%js.
Proof.
  split; [vm_compute; reflexivity|].
  apply (calculateEMA_append [1%float; 2%float; 3%float] 7%float 2 2.5%float).
  vm_compute; reflexivity.
Defined.

(** ** The range and the shape of the RSI *)

Section RSIRange.
Local Open Scope R_scope.

Lemma rsi_seed_nonneg (data : list R) (lo hi : nat) (s0 : R * R) :
  0 <= fst s0 -> 0 <= snd s0 ->
  0 <= fst (for_range lo hi (rsi_seed_step data) s0) /\
  0 <= snd (for_range lo hi (rsi_seed_step data) s0).
Proof.
  intros Hg Hl. unfold for_range.
  apply (fold_left_invariant (fun s : R * R => 0 <= fst s /\ 0 <= snd s));
    [|split; assumption].
  intros i [gains losses] _ [Hg' Hl']. cbn [fst snd] in *.
  unfold rsi_seed_step. js_R. unfold Rltb.
  destruct (Rlt_dec 0 (get data i - get data (i - 1))); cbn [fst snd]; lra.
Qed.

Lemma rsi_smooth_nonneg (data : list R) (period i : nat) (avgs : R * R) :
  (1 <= period)%nat -> 0 <= fst avgs -> 0 <= snd avgs ->
  0 <= fst (rsi_smooth_step data period i avgs) /\
  0 <= snd (rsi_smooth_step data period i avgs).
Proof.
  intros Hp Hg Hl. destruct avgs as [avgGain avgLoss]. cbn [fst snd] in *.
  assert (Hp1 : 1 <= INR period)
    by (replace 1 with (INR 1) by reflexivity; apply le_INR; lia).
  unfold rsi_smooth_step, of_nat. js_R. rewrite <- INR_IZR_INZ. unfold Rltb.
  destruct (Rlt_dec 0 (get data i - get data (i - 1))); cbn [fst snd];
    split; apply Rmult_le_pos;
    solve [nra | left; apply Rinv_0_lt_compat; lra].
Qed.

Lemma rsi_ratio_bounds (rs : R) : 0 <= rs -> 0 <= 100 - 100 / (1 + rs) <= 100.
Proof.
  intros Hrs.
  assert (Hinv : 0 < / (1 + rs) <= 1).
  { split; [apply Rinv_0_lt_compat; lra|].
    rewrite <- Rinv_1 at 2. apply Rinv_le_contravar; lra. }
  unfold Rdiv. lra.
Qed.

Lemma rsi_reading_bounds (avgGain avgLoss : R) :
  0 <= avgGain -> 0 <= avgLoss -> 0 <= rsi_reading avgGain avgLoss <= 100.
Proof.
  intros Hg Hl. unfold rsi_reading. js_R. unfold Reqb.
  destruct (Req_dec_T avgLoss 0) as [Hz|Hnz]; apply rsi_ratio_bounds; [lra|].
  apply Rmult_le_pos; [exact Hg|]. left. apply Rinv_0_lt_compat. lra.
Qed.

Lemma rsi_averages_nonneg (data : list R) (period : nat) :
  (1 <= period)%nat ->
  0 <= fst (rsi_averages data period) /\ 0 <= snd (rsi_averages data period).
Proof.
  intros Hp. unfold rsi_averages.
  pose proof (rsi_seed_nonneg data 1 (period + 1) (of_Z 0, of_Z 0)) as Hseed.
  destruct (for_range 1 (period + 1) (rsi_seed_step data) (of_Z 0, of_Z 0))
    as [gains losses].
  cbn [fst snd] in Hseed. js_R. destruct Hseed as [Hg Hl]; [lra | lra |].
  assert (Hp1 : 1 <= INR period)
    by (replace 1 with (INR 1) by reflexivity; apply le_INR; lia).
  unfold for_range.
  apply (fold_left_invariant (fun s : R * R => 0 <= fst s /\ 0 <= snd s)).
  - intros i avgs _ [Hg' Hl']. now apply rsi_smooth_nonneg.
  - unfold of_nat. js_R. rewrite <- INR_IZR_INZ. cbn [fst snd].
    split; apply Rmult_le_pos; solve [assumption | left; apply Rinv_0_lt_compat; lra].
Qed.

(** X4: calculateRSI is absent with fewer than period + 1 closes; with
    period >= 1 and at least period + 1 closes it returns a value in [0, 100]. *)
Theorem calculateRSI_range (data : list R) (period : nat) :
  ((length data < period + 1)%nat -> calculateRSI data period = None) /\
  ((1 <= period)%nat -> (period + 1 <= length data)%nat ->
   exists r, calculateRSI data period = Some r /\ 0 <= r <= 100).
Proof.
  unfold calculateRSI. split.
  - intros Hlt. destruct (Nat.ltb_spec (length data) (period + 1)); [reflexivity | lia].
  - intros Hp Hlen. destruct (Nat.ltb_spec (length data) (period + 1)); [lia|].
    pose proof (rsi_averages_nonneg data period Hp) as [Hg Hl].
    destruct (rsi_averages data period) as [avgGain avgLoss]. cbn [fst snd] in *.
    js_R. unfold Reqb. destruct (Req_dec_T avgLoss 0) as [Hz|Hnz].
    + eexists. split; [reflexivity | lra].
    + eexists. split; [reflexivity|]. apply rsi_ratio_bounds.
      apply Rmult_le_pos; [exact Hg|]. left. apply Rinv_0_lt_compat. lra.
Qed.

(** X5: with period >= 1 every point of generateRSISeries has a value in
    [0, 100]. *)
Theorem generateRSISeries_range (bars : list (PriceBar R)) (period : nat) :
  (1 <= period)%nat ->
  Forall (fun pt => 0 <= value pt <= 100) (generateRSISeries bars period).
Proof.
  intros Hp. unfold generateRSISeries.
  destruct (length (map (@close R) bars) <? period + 1)%nat; [constructor|].
  pose proof (rsi_seed_nonneg (map (@close R) bars) 1 (period + 1) (of_Z 0, of_Z 0))
    as Hseed.
  destruct (for_range 1 (period + 1) (rsi_seed_step (map (@close R) bars))
              (of_Z 0, of_Z 0)) as [gains losses].
  cbn [fst snd] in Hseed. js_R. destruct Hseed as [Hg Hl]; [lra | lra |].
  assert (Hp1 : 1 <= INR period)
    by (replace 1 with (INR 1) by reflexivity; apply le_INR; lia).
  assert (Hg0 : 0 <= gains / of_nat period).
  { unfold of_nat. js_R. rewrite <- INR_IZR_INZ.
    apply Rmult_le_pos; [exact Hg | left; apply Rinv_0_lt_compat; lra]. }
  assert (Hl0 : 0 <= losses / of_nat period).
  { unfold of_nat. js_R. rewrite <- INR_IZR_INZ.
    apply Rmult_le_pos; [exact Hl | left; apply Rinv_0_lt_compat; lra]. }
  unfold for_range.
  match goal with
  | |- Forall ?Q (snd (fold_left ?f ?l ?s0)) =>
      assert (Hinv : (0 <= fst (fst (fold_left f l s0)) /\
                      0 <= snd (fst (fold_left f l s0))) /\
                     Forall Q (snd (fold_left f l s0)))
  end.
  { apply (fold_left_invariant
             (fun s : R * R * list (Point R) =>
                (0 <= fst (fst s) /\ 0 <= snd (fst s)) /\
                Forall (fun pt => 0 <= value pt <= 100) (snd s))).
    - intros i [avgs result] _ [[Hg' Hl'] Hall]. cbn [fst snd] in *.
      pose proof (rsi_smooth_nonneg (map (@close R) bars) period i avgs Hp Hg' Hl')
        as [Hg2 Hl2].
      split; [split; assumption|].
      apply Forall_app. split; [exact Hall|].
      constructor; [|constructor]. cbn [value]. now apply rsi_reading_bounds.
    - cbn [fst snd]. split; [split; assumption|].
      constructor; [|constructor]. cbn [value]. now apply rsi_reading_bounds. }
  exact (proj2 Hinv).
Qed.

End RSIRange.

Lemma calculateRSI_range_witness :
  ((1 <= 2)%nat /\ (2 + 1 <= length [1%R; 3%R; 2%R; 5%R])%nat) /\
  exists r, calculateRSI [1%R; 3%R; 2%R; 5%R] 2 = Some r /\ (0 <= r <= 100)%R.
Proof.
  split; [simpl; lia|].
  apply (calculateRSI_range [1%R; 3%R; 2%R; 5%R] 2); simpl; lia.
Defined.

Lemma generateRSISeries_range_witness :
  (1 <= 2)%nat /\
  Forall (fun pt => (0 <= value pt <= 100)%R)
         (generateRSISeries (map (bar_of "2024-01-02T00:00:00Z") [1%R; 3%R; 2%R; 5%R]) 2).
Proof.
  split; [lia|].
  apply (generateRSISeries_range
           (map (bar_of "2024-01-02T00:00:00Z") [1%R; 3%R; 2%R; 5%R]) 2). lia.
Defined.

Section RSISeriesShape.
Context {num : Type} `{Number num}.

Lemma rsi_loop_times (bars : list (PriceBar num)) (period : nat) (l : list nat)
    (st : num * num * list (Point num)) :
  map (@time num)
      (snd (fold_left
              (fun s i =>
                 (fun (i : nat) '(avgs, result) =>
                    let avgs := rsi_smooth_step (map (@close num) bars) period i avgs in
                    (avgs,
                     result ++ [ {| time := bar_date bars i;
                                    value := rsi_reading (fst avgs) (snd avgs) |} ]))
                   i s)
              l st))
  = map (@time num) (snd st) ++ map (bar_date bars) l.
Proof.
  revert st; induction l as [|i l IH]; intros [avgs result]; cbn [fold_left].
  - cbn. now rewrite app_nil_r.
  - rewrite IH. cbn [snd]. rewrite map_app, <- app_assoc. reflexivity.
Qed.

Lemma rsi_loop_averages (bars : list (PriceBar num)) (period : nat) (l : list nat)
    (st : num * num * list (Point num)) :
  fst (fold_left
         (fun s i =>
            (fun (i : nat) '(avgs, result) =>
               let avgs := rsi_smooth_step (map (@close num) bars) period i avgs in
               (avgs,
                result ++ [ {| time := bar_date bars i;
                               value := rsi_reading (fst avgs) (snd avgs) |} ]))
              i s)
         l st)
  = fold_left (fun avgs i => rsi_smooth_step (map (@close num) bars) period i avgs)
              l (fst st).
Proof.
  revert st; induction l as [|i l IH]; intros [avgs result]; cbn [fold_left];
    [reflexivity|]. now rewrite IH.
Qed.

(** X6: generateRSISeries is empty with fewer than period + 1 bars;
    otherwise it has one point per bar from index period on, dated at those
    bars in order, in every number model. *)
Theorem generateRSISeries_dates (bars : list (PriceBar num)) (period : nat) :
  (length bars < period + 1 -> generateRSISeries bars period = []) /\
  (period + 1 <= length bars ->
   map (@time num) (generateRSISeries bars period)
   = map (bar_date bars) (seq period (length bars - period))).
Proof.
  unfold generateRSISeries. rewrite length_map. split.
  - intros Hlt. destruct (Nat.ltb_spec (length bars) (period + 1)); [reflexivity | lia].
  - intros Hlen. destruct (Nat.ltb_spec (length bars) (period + 1)); [lia|].
    destruct (for_range 1 (period + 1) (rsi_seed_step (map (@close num) bars))
                (of_Z 0, of_Z 0)) as [gains losses].
    unfold for_range. rewrite rsi_loop_times. cbn [snd map app].
    replace (length bars - period) with (Datatypes.S (length bars - (period + 1)))
      by lia.
    cbn [seq map]. rewrite Nat.add_1_r. reflexivity.
Qed.

(** X7: when the smoothed average loss that calculateRSI ends with is not
    zero, the last point of generateRSISeries carries exactly the value
    calculateRSI returns for the same closes, in every number model. *)
Theorem generateRSISeries_last (bars : list (PriceBar num)) (period : nat) :
  period + 1 <= length bars ->
  (snd (rsi_averages (map (@close num) bars) period) =? of_Z 0)%js = false ->
  exists front pt,
    generateRSISeries bars period = front ++ [pt] /\
    calculateRSI (map (@close num) bars) period = Some (value pt).
Proof.
  intros Hlen Hnz. unfold generateRSISeries, calculateRSI.
  rewrite length_map.
  destruct (Nat.ltb_spec (length bars) (period + 1)); [lia|].
  unfold rsi_averages in *.
  destruct (for_range 1 (period + 1) (rsi_seed_step (map (@close num) bars))
              (of_Z 0, of_Z 0)) as [gains losses].
  rewrite length_map in *. unfold for_range in *.
  match goal with
  | |- context [snd (fold_left ?f ?l ?s0)] =>
      assert (Havg : fst (fold_left f l s0)
                     = fold_left
                         (fun avgs i =>
                            rsi_smooth_step (map (@close num) bars) period i avgs)
                         l (fst s0))
        by apply rsi_loop_averages;
      assert (Hlast : exists front pt,
                 snd (fold_left f l s0) = front ++ [pt] /\
                 value pt = rsi_reading (fst (fst (fold_left f l s0)))
                                        (snd (fst (fold_left f l s0))));
      [|set (F := fold_left f l s0) in *]
  end.
  { apply (fold_left_invariant
             (fun s : num * num * list (Point num) =>
                exists front pt,
                  snd s = front ++ [pt] /\
                  value pt = rsi_reading (fst (fst s)) (snd (fst s)))).
    - intros i [avgs result] _ _. cbn [fst snd].
      eexists; eexists. split; reflexivity.
    - exists [], {| time := bar_date bars period;
                    value := rsi_reading (gains / of_nat period)%js
                                         (losses / of_nat period)%js |}.
      split; reflexivity. }
  destruct Hlast as (front & pt & Hsnd & Hval).
  exists front, pt. split; [exact Hsnd|].
  rewrite Hval, Havg. cbn [fst].
  destruct (fold_left
              (fun avgs i => rsi_smooth_step (map (@close num) bars) period i avgs)
              (seq (period + 1) (length bars - (period + 1)))
              ((gains / of_nat period)%js, (losses / of_nat period)%js))
    as [avgGain avgLoss].
  cbn [fst snd] in *. unfold rsi_reading. now rewrite Hnz.
Qed.

End RSISeriesShape.

Lemma generateRSISeries_dates_witness :
  14 + 1 <= length rising_bars /\
  map (@time float) (generateRSISeries rising_bars 14)
  = map (bar_date rising_bars) (seq 14 (length rising_bars - 14)).
Proof.
  split; [simpl; lia | apply (generateRSISeries_dates rising_bars 14); simpl; lia].
Defined.

Lemma generateRSISeries_last_witness :
  (2 + 1 <= length (@zigzag_bars float _) /\
   (snd (rsi_averages (map (@close float) zigzag_bars) 2) =? of_Z 0)%js = false) /\
  exists front pt,
    generateRSISeries (@zigzag_bars float _) 2 = front ++ [pt] /\
    calculateRSI (map (@close float) zigzag_bars) 2 = Some (value pt).
Proof.
  split; [split; [simpl; lia | vm_compute; reflexivity]|].
  apply (generateRSISeries_last zigzag_bars 2); [simpl; lia | vm_compute; reflexivity].
Defined.

(** ** Which indicators calculateIndicators reports *)

Section Availability.
Context {num : Type} `{Number num} `{Absolute num}.

Lemma calculateSMA_available (data : list num) (period : nat) :
  defined (calculateSMA data period) = (period <=? length data).
Proof.
  unfold calculateSMA. rewrite Nat.leb_antisym.
  destruct (length data <? period); reflexivity.
Qed.

Lemma calculateEMA_available (data : list num) (period : nat) :
  defined (calculateEMA data period) = (period <=? length data).
Proof.
  unfold calculateEMA. rewrite Nat.leb_antisym.
  destruct (length data <? period); reflexivity.
Qed.

Lemma calculateRSI_available (data : list num) (period : nat) :
  defined (calculateRSI data period) = (period + 1 <=? length data).
Proof.
  unfold calculateRSI. rewrite Nat.leb_antisym.
  destruct (length data <? period + 1); [reflexivity|].
  destruct (rsi_averages data period) as [avgGain avgLoss].
  destruct (avgLoss =? of_Z 0)%js; reflexivity.
Qed.

Lemma calculateMACD_available (data : list num) :
  defined (calculateMACD data) = (26 <=? length data).
Proof.
  unfold calculateMACD.
  pose proof (calculateEMA_available data 12) as H12.
  pose proof (calculateEMA_available data 26) as H26.
  destruct (calculateEMA data 12) as [ema12|], (calculateEMA data 26) as [ema26|];
    cbn [defined] in *.
  - destruct (for_range 26 (length data) _ _) as [[e12 e26] mv]. exact H26.
  - exact H26.
  - symmetry in H12. apply Nat.leb_gt in H12.
    symmetry. apply Nat.leb_gt. lia.
  - exact H26.
Qed.

Lemma calculateBollingerBands_available (data : list num) (period : nat) (k : num) :
  defined (calculateBollingerBands data period k) = (period <=? length data).
Proof.
  unfold calculateBollingerBands, calculateSMA. rewrite Nat.leb_antisym.
  destruct (length data <? period); reflexivity.
Qed.

Lemma calculateATR_available (highs lows closes : list num) (period : nat) :
  defined (calculateATR highs lows closes period) = (period + 1 <=? length highs).
Proof.
  unfold calculateATR.
  destruct (Nat.ltb_spec (length highs) (period + 1)) as [Hlt|Hge].
  - symmetry. apply Nat.leb_gt. exact Hlt.
  - rewrite calculateSMA_available, for_range_push. cbn [app].
    rewrite length_map, length_seq.
    transitivity true; [apply Nat.leb_le; lia | symmetry; apply Nat.leb_le; exact Hge].
Qed.

(** X8: calculateIndicators reports each indicator exactly when the history
    is long enough for it: sma20, sma50 and sma200 from 20, 50 and 200 bars,
    ema12 from 12, ema26 and macd from 26, rsi and atr from 15, and the
    Bollinger bands from 20; with no bars every field is absent. *)
Theorem calculateIndicators_availability (bars : list (PriceBar num)) :
  defined (TechnicalIndicators.sma20 (calculateIndicators bars)) = (20 <=? length bars) /\
  defined (TechnicalIndicators.sma50 (calculateIndicators bars)) = (50 <=? length bars) /\
  defined (TechnicalIndicators.sma200 (calculateIndicators bars))
  = (200 <=? length bars) /\
  defined (TechnicalIndicators.ema12 (calculateIndicators bars)) = (12 <=? length bars) /\
  defined (TechnicalIndicators.ema26 (calculateIndicators bars)) = (26 <=? length bars) /\
  defined (TechnicalIndicators.rsi (calculateIndicators bars)) = (15 <=? length bars) /\
  defined (TechnicalIndicators.macd (calculateIndicators bars)) = (26 <=? length bars) /\
  defined (TechnicalIndicators.bollingerBands (calculateIndicators bars))
  = (20 <=? length bars) /\
  defined (TechnicalIndicators.atr (calculateIndicators bars)) = (15 <=? length bars).
Proof.
  destruct bars as [|b bars']; [repeat split; reflexivity|].
  unfold calculateIndicators.
  cbn [TechnicalIndicators.sma20 TechnicalIndicators.sma50 TechnicalIndicators.sma200
       TechnicalIndicators.ema12 TechnicalIndicators.ema26 TechnicalIndicators.rsi
       TechnicalIndicators.macd TechnicalIndicators.bollingerBands
       TechnicalIndicators.atr].
  rewrite !calculateSMA_available, !calculateEMA_available, calculateRSI_available,
    calculateMACD_available, calculateBollingerBands_available,
    calculateATR_available, !length_map.
  repeat split; reflexivity.
Qed.

End Availability.

(** ** Bollinger bands and the indicator series *)

Section SeriesLoops.
Context {A B C : Type}.

Lemma fold_left_push3 (fa : nat -> A) (fb : nat -> B) (fc : nat -> C) (idx : list nat)
    (st : list A * list B * list C) :
  fold_left (fun s i =>
               let '(a, b, c) := s in (a ++ [fa i], b ++ [fb i], c ++ [fc i]))
            idx st
  = (fst (fst st) ++ map fa idx, snd (fst st) ++ map fb idx, snd st ++ map fc idx).
Proof.
  revert st; induction idx as [|i idx IH]; intros [[a b] c]; cbn [fold_left].
  - cbn. now rewrite !app_nil_r.
  - rewrite IH. cbn [fst snd map]. now rewrite <- !app_assoc.
Qed.

End SeriesLoops.

Section BandsGeneric.
Context {num : Type} `{Number num} `{Absolute num}.

Lemma fold_left_sum_map {T : Type} (f : T -> num) (l : list T) (acc : num) :
  fold_left (fun s v => (s + f v)%js) l acc = fold_left nadd (map f l) acc.
Proof.
  revert acc; induction l as [|x l IH]; intros acc; cbn; [reflexivity | apply IH].
Qed.

Lemma prefix_window (closes : list num) (j p : nat) :
  j + p <= length closes ->
  length (firstn (j + p) closes) = j + p /\
  skipn (length (firstn (j + p) closes) - p) (firstn (j + p) closes)
  = slice j (j + p) closes.
Proof.
  intros Hlen.
  assert (Hf : length (firstn (j + p) closes) = j + p)
    by (rewrite length_firstn; lia).
  split; [exact Hf|]. rewrite Hf. unfold slice.
  replace (j + p - p) with j by lia. apply skipn_firstn_comm.
Qed.

(* the value of the simple average over the window that ends at bar j + p - 1 *)
Lemma calculateSMA_prefix (closes : list num) (j p : nat) :
  1 <= p -> j + p <= length closes ->
  calculateSMA (firstn (j + p) closes) p
  = Some (sum (slice j (j + p) closes) / of_nat p)%js.
Proof.
  intros Hp Hlen. destruct (prefix_window closes j p Hlen) as [Hf Hw].
  unfold calculateSMA. rewrite Hf.
  destruct (Nat.ltb_spec (j + p) p); [lia|].
  unfold slice_last. destruct p as [|p']; [lia|].
  rewrite Hf in Hw. rewrite Hf, Hw. reflexivity.
Qed.

(* the bands over the window that ends at bar j + p - 1 *)
Lemma calculateBollingerBands_prefix (closes : list num) (j p : nat) (k : num) :
  1 <= p -> j + p <= length closes ->
  calculateBollingerBands (firstn (j + p) closes) p k
  = (let w := slice j (j + p) closes in
     let sma := (sum w / of_nat p)%js in
     let std :=
       nsqrt (fold_left (fun s v => (s + pow2 (v - sma))%js) w (of_Z 0) / of_nat p)%js in
     Some {| upper := (sma + k * std)%js; middle := sma; lower := (sma - k * std)%js |}).
Proof.
  intros Hp Hlen. destruct (prefix_window closes j p Hlen) as [Hf Hw].
  unfold calculateBollingerBands.
  rewrite (calculateSMA_prefix closes j p Hp Hlen), Hf.
  destruct (Nat.ltb_spec (j + p) p); [lia|].
  unfold slice_last. destruct p as [|p']; [lia|].
  rewrite Hf in Hw. rewrite Hf, Hw. cbn zeta.
  rewrite fold_left_sum_map. reflexivity.
Qed.

(* the three bands, point by point *)
Lemma generateBollingerBandsSeries_closed (bars : list (PriceBar num)) (p : nat)
    (k : num) :
  1 <= p ->
  generateBollingerBandsSeries bars p k
  = (let closes := map (@close num) bars in
     let sma i := (sum (slice (i + 1 - p) (i + 1) closes) / of_nat p)%js in
     let std i :=
       nsqrt (fold_left (fun s v => (s + pow2 (v - sma i))%js)
                        (slice (i + 1 - p) (i + 1) closes) (of_Z 0)
              / of_nat p)%js in
     let idx := seq (p - 1) (length bars - (p - 1)) in
     Some {| BandSeries.upper :=
               map (fun i => {| time := bar_date bars i;
                                value := (sma i + k * std i)%js |}) idx;
             BandSeries.middle :=
               map (fun i => {| time := bar_date bars i; value := sma i |}) idx;
             BandSeries.lower :=
               map (fun i => {| time := bar_date bars i;
                                value := (sma i - k * std i)%js |}) idx |}).
Proof.
  intros Hp. unfold generateBollingerBandsSeries.
  destruct p as [|p']; [lia|]. cbn zeta. unfold for_range. rewrite length_map.
  match goal with
  | |- context [fold_left ?f ?l ?s0] =>
      assert (E : fold_left f l s0
                  = (fst (fst s0) ++ map _ l, snd (fst s0) ++ map _ l,
                     snd s0 ++ map _ l))
        by (apply (fold_left_push3
                     (fun i => {| time := bar_date bars i; value := _ |})
                     (fun i => {| time := bar_date bars i; value := _ |})
                     (fun i => {| time := bar_date bars i; value := _ |})));
      rewrite E
  end.
  reflexivity.
Qed.

End BandsGeneric.

Section SeriesAgainstPoints.
Context {num : Type} `{Number num} `{Absolute num}.

Lemma nth_error_map_seq {T : Type} (f : nat -> T) (lo n j : nat) :
  j < n -> nth_error (map f (seq lo n)) j = Some (f (lo + j)).
Proof.
  intros Hj. rewrite nth_error_map, nth_error_seq.
  destruct (Nat.ltb_spec j n); [reflexivity | lia].
Qed.

(** X9: for period >= 1 the SMA series has one point per bar from index
    period - 1 on, and the point for the window ending at a bar is dated at
    that bar and carries exactly calculateSMA of the closes up to that bar,
    in every number model. *)
Theorem generateIndicatorSeries_sma_points (bars : list (PriceBar num)) (p : nat) :
  1 <= p ->
  exists pts,
    generateIndicatorSeries bars p Sma = Some pts /\
    length pts = length bars + 1 - p /\
    forall j, j + p <= length bars ->
      exists v,
        calculateSMA (firstn (j + p) (map (@close num) bars)) p = Some v /\
        nth_error pts j = Some {| time := bar_date bars (j + p - 1); value := v |}.
Proof.
  intros Hp. unfold generateIndicatorSeries. destruct p as [|p']; [lia|].
  eexists. split; [reflexivity|].
  rewrite for_range_push. cbn [app]. rewrite length_map, length_seq, length_map.
  split; [lia|]. intros j Hj.
  rewrite calculateSMA_prefix by (rewrite ?length_map; lia).
  eexists. split; [reflexivity|].
  rewrite nth_error_map_seq by lia.
  replace (S p' - 1 + j + 1 - S p') with j by lia.
  replace (S p' - 1 + j + 1) with (j + S p') by lia.
  replace (S p' - 1 + j) with (j + S p' - 1) by lia.
  reflexivity.
Qed.

(** X10: for period >= 1 the three Bollinger series have one point per bar
    from index period - 1 on; the middle band is the SMA series, and the
    points for the window ending at a bar are dated at that bar and carry
    exactly the upper, middle and lower values calculateBollingerBands
    returns for the closes up to that bar, in every number model. *)
Theorem generateBollingerBandsSeries_points (bars : list (PriceBar num)) (p : nat)
    (k : num) :
  1 <= p ->
  exists s,
    generateBollingerBandsSeries bars p k = Some s /\
    generateIndicatorSeries bars p Sma = Some (BandSeries.middle s) /\
    length (BandSeries.upper s) = length bars + 1 - p /\
    length (BandSeries.middle s) = length bars + 1 - p /\
    length (BandSeries.lower s) = length bars + 1 - p /\
    forall j, j + p <= length bars ->
      exists b,
        calculateBollingerBands (firstn (j + p) (map (@close num) bars)) p k = Some b /\
        nth_error (BandSeries.upper s) j
        = Some {| time := bar_date bars (j + p - 1); value := upper b |} /\
        nth_error (BandSeries.middle s) j
        = Some {| time := bar_date bars (j + p - 1); value := middle b |} /\
        nth_error (BandSeries.lower s) j
        = Some {| time := bar_date bars (j + p - 1); value := lower b |}.
Proof.
  intros Hp. rewrite (generateBollingerBandsSeries_closed bars p k Hp). cbn zeta.
  eexists. split; [reflexivity|].
  cbn [BandSeries.upper BandSeries.middle BandSeries.lower].
  rewrite !length_map, !length_seq.
  split.
  { unfold generateIndicatorSeries. destruct p as [|p']; [lia|].
    rewrite for_range_push, length_map. reflexivity. }
  split; [lia|]. split; [lia|]. split; [lia|].
  intros j Hj.
  rewrite calculateBollingerBands_prefix by (rewrite ?length_map; lia). cbn zeta.
  eexists. split; [reflexivity|].
  cbn [upper middle lower].
  rewrite !nth_error_map_seq by lia.
  replace (p - 1 + j + 1 - p) with j by lia.
  replace (p - 1 + j + 1) with (j + p) by lia.
  replace (p - 1 + j) with (j + p - 1) by lia.
  repeat split; reflexivity.
Qed.

(** X11: with a period above the number of bars the loops of
    generateIndicatorSeries, for either type, and of
    generateBollingerBandsSeries never run, and all the series they return
    are empty, in every number model. *)
Theorem series_edges (bars : list (PriceBar num)) (p : nat) (type : IndicatorType)
    (k : num) :
  length bars < p ->
  generateIndicatorSeries bars p type = Some [] /\
  generateBollingerBandsSeries bars p k
  = Some {| BandSeries.upper := []; BandSeries.middle := []; BandSeries.lower := [] |}.
Proof.
  intros Hlt.
  assert (Hp : 1 <= p) by lia.
  split.
  - unfold generateIndicatorSeries. destruct p as [|p']; [lia|].
    rewrite for_range_push, length_map.
    replace (length bars - (S p' - 1)) with 0 by lia. reflexivity.
  - rewrite (generateBollingerBandsSeries_closed bars p k Hp). cbn zeta.
    replace (length bars - (p - 1)) with 0 by lia. reflexivity.
Qed.

End SeriesAgainstPoints.

Lemma generateIndicatorSeries_sma_points_witness :
  1 <= 2 /\
  exists pts,
    generateIndicatorSeries three_bars 2 Sma = Some pts /\
    length pts = length three_bars + 1 - 2 /\
    forall j, j + 2 <= length three_bars ->
      exists v,
        calculateSMA (firstn (j + 2) (map (@close float) three_bars)) 2 = Some v /\
        nth_error pts j = Some {| time := bar_date three_bars (j + 2 - 1); value := v |}.
Proof.
  split; [lia | apply (generateIndicatorSeries_sma_points three_bars 2); lia].
Defined.

Lemma generateBollingerBandsSeries_points_witness :
  1 <= 2 /\
  exists s,
    generateBollingerBandsSeries three_bars 2 2%float = Some s /\
    generateIndicatorSeries three_bars 2 Sma = Some (BandSeries.middle s).
Proof.
  split; [lia|].
  destruct (generateBollingerBandsSeries_points three_bars 2 2%float) as (s & Hs & Hm & _);
    [lia|].
  exists s. split; assumption.
Defined.

Lemma series_edges_witness :
  length three_bars < 5 /\
  generateIndicatorSeries three_bars 5 Ema = Some [].
Proof.
  split; [simpl; lia|].
  apply (series_edges three_bars 5 Ema 2%float). simpl; lia.
Defined.

Section BandsExact.
Local Open Scope R_scope.

(* the deviation the code computes over a window of p values *)
Lemma window_deviation (w : list R) (p : nat) :
  length w = p ->
  nsqrt (fold_left (fun s v : R => (s + pow2 (v - sum w / of_nat p))%js) w (of_Z 0)
         / of_nat p)%js
  = population_stddev w.
Proof.
  intros Hlen. unfold population_stddev, mean, pow2, of_nat. js_R.
  rewrite (fold_left_total (fun v => (v - sum w / IZR (Z.of_nat p))
                                     * (v - sum w / IZR (Z.of_nat p)))).
  rewrite sum_total, <- INR_IZR_INZ, Hlen, Rplus_0_l. reflexivity.
Qed.

(** X12: calculateBollingerBands is absent with fewer than period values;
    for 1 <= period <= length and a multiplier k >= 0, the middle band is
    calculateSMA, the upper and lower bands lie k population standard
    deviations of the last period values above and below it, and
    lower <= middle <= upper. *)
Theorem calculateBollingerBands_bands (data : list R) (p : nat) (k : R) :
  ((length data < p)%nat -> calculateBollingerBands data p k = None) /\
  ((1 <= p <= length data)%nat -> 0 <= k ->
   exists b,
     calculateBollingerBands data p k = Some b /\
     calculateSMA data p = Some (middle b) /\
     upper b = middle b + k * population_stddev (skipn (length data - p) data) /\
     lower b = middle b - k * population_stddev (skipn (length data - p) data) /\
     lower b <= middle b <= upper b).
Proof.
  split.
  - intros Hlt. unfold calculateBollingerBands.
    destruct (Nat.ltb_spec (length data) p); [reflexivity | lia].
  - intros [Hp Hlen] Hk.
    pose proof (calculateBollingerBands_prefix (num:=R) data (length data - p) p k Hp)
      as Hb.
    replace (length data - p + p)%nat with (length data) in Hb by lia.
    rewrite firstn_all in Hb. specialize (Hb (Nat.le_refl _)). cbn zeta in Hb.
    pose proof (calculateSMA_prefix (num:=R) data (length data - p) p Hp) as Hs.
    replace (length data - p + p)%nat with (length data) in Hs by lia.
    rewrite firstn_all in Hs. specialize (Hs (Nat.le_refl _)).
    assert (Hw : slice (length data - p) (length data) data
                 = skipn (length data - p) data).
    { unfold slice. apply firstn_all2. rewrite length_skipn. lia. }
    rewrite Hw in Hb, Hs.
    assert (Hwl : length (skipn (length data - p) data) = p)
      by (rewrite length_skipn; lia).
    rewrite (window_deviation _ p Hwl) in Hb. js_R.
    eexists. split; [exact Hb|]. cbn [upper middle lower].
    split; [exact Hs|]. split; [reflexivity|]. split; [reflexivity|].
    assert (Hsd : 0 <= population_stddev (skipn (length data - p) data))
      by apply sqrt_pos.
    nra.
Qed.

Lemma Forall2_map_both {T U V : Type} (P : U -> V -> Prop) (f : T -> U) (g : T -> V)
    (l : list T) :
  (forall x, P (f x) (g x)) -> Forall2 P (map f l) (map g l).
Proof.
  intros HP. induction l as [|x l IH]; cbn; constructor; [apply HP | exact IH].
Qed.

(** X13: for period >= 1 and a multiplier k >= 0, every point of the lower
    band series is at or below the middle band at the same bar, and every
    point of the middle band is at or below the upper band. *)
Theorem generateBollingerBandsSeries_ordered (bars : list (PriceBar R)) (p : nat)
    (k : R) :
  (1 <= p)%nat -> 0 <= k ->
  exists s,
    generateBollingerBandsSeries bars p k = Some s /\
    Forall2 (fun lo mid => time lo = time mid /\ value lo <= value mid)
            (BandSeries.lower s) (BandSeries.middle s) /\
    Forall2 (fun mid up => time mid = time up /\ value mid <= value up)
            (BandSeries.middle s) (BandSeries.upper s).
Proof.
  intros Hp Hk.
  rewrite (generateBollingerBandsSeries_closed (num:=R) bars p k Hp). cbn zeta.
  eexists. split; [reflexivity|].
  cbn [BandSeries.upper BandSeries.middle BandSeries.lower].
  split; apply Forall2_map_both; intros i; cbn [time value]; js_R;
    (split; [reflexivity|]);
    match goal with
    | |- context [R_sqrt.sqrt ?v] => pose proof (sqrt_pos v)
    end; nra.
Qed.

End BandsExact.

Lemma calculateBollingerBands_bands_witness :
  ((1 <= 2 <= length [1%R; 2%R; 4%R])%nat /\ (0 <= 2)%R) /\
  exists b,
    calculateBollingerBands [1%R; 2%R; 4%R] 2 2%R = Some b /\
    calculateSMA [1%R; 2%R; 4%R] 2 = Some (middle b).
Proof.
  split; [split; [simpl; lia | lra]|].
  destruct (calculateBollingerBands_bands [1%R; 2%R; 4%R] 2 2%R) as [_ Hb].
  destruct Hb as (b & Hb & Hs & _); [simpl; lia | lra |].
  exists b. split; assumption.
Defined.

Lemma generateBollingerBandsSeries_ordered_witness :
  ((1 <= 2)%nat /\ (0 <= 2)%R) /\
  exists s, generateBollingerBandsSeries (@zigzag_bars R _) 2 2%R = Some s.
Proof.
  split; [split; [lia | lra]|].
  destruct (generateBollingerBandsSeries_ordered (@zigzag_bars R _) 2 2%R)
    as (s & Hs & _); [lia | lra |].
  exists s. exact Hs.
Defined.

(** ** Average true range *)

Section TrueRange.
Local Open Scope R_scope.

Lemma max2_ge_right (a b : R) : b <= max2 a b.
Proof. destruct (max2_exact a b) as [[-> ?]|[-> ?]]; lra. Qed.

Lemma max2_ge_left (a b : R) : a <= max2 a b.
Proof. destruct (max2_exact a b) as [[-> ?]|[-> ?]]; lra. Qed.

Lemma mean_nonneg (l : list R) :
  (forall x, In x l -> 0 <= x) -> 0 <= mean l.
Proof.
  intros Hl. unfold mean. pose proof (total_nonneg l Hl) as Ht.
  destruct l as [|x l]; [cbn; lra|].
  apply Rmult_le_pos; [exact Ht|]. left. apply Rinv_0_lt_compat.
  apply lt_0_INR. cbn; lia.
Qed.

(** X14: with at least 15 bars calculateIndicators reports an average true
    range, and it is never negative and never below the average high - low
    spread of the last 14 bars. *)
Theorem calculateIndicators_atr (bars : list (PriceBar R)) :
  (15 <= length bars)%nat ->
  exists a,
    TechnicalIndicators.atr (calculateIndicators bars) = Some a /\
    0 <= a /\
    mean (map (fun b => high b - low b) (skipn (length bars - 14) bars)) <= a.
Proof.
  intros Hlen. destruct bars as [|b0 bars'] eqn:E; [cbn in Hlen; lia|].
  rewrite <- E in *. assert (Hcalc : calculateIndicators bars
    = calculateIndicators (b0 :: bars')) by now rewrite E.
  rewrite Hcalc. unfold calculateIndicators. rewrite <- E.
  cbn [TechnicalIndicators.atr]. unfold calculateATR.
  rewrite length_map.
  destruct (Nat.ltb_spec (length bars) (14 + 1)); [lia|].
  rewrite for_range_push. cbn [app].
  set (tr := fun i : nat =>
               max2 (max2 (get (map (@high R) bars) i - get (map (@low R) bars) i)%js
                          (nabs (get (map (@high R) bars) i
                                 - get (map (@close R) bars) (i - 1))%js))
                    (nabs (get (map (@low R) bars) i
                           - get (map (@close R) bars) (i - 1))%js)).
  remember (map tr (seq 1 (length bars - 1))) as trs eqn:Etrs.
  assert (Htl : length trs = (length bars - 1)%nat)
    by (subst trs; now rewrite length_map, length_seq).
  rewrite calculateSMA_window by lia.
  eexists. split; [reflexivity|].
  assert (Hw : skipn (length trs - 14) trs
               = map tr (seq (length bars - 14) 14)).
  { rewrite Htl. subst trs. rewrite skipn_map, skipn_seq. do 2 f_equal; lia. }
  rewrite Hw. split.
  - apply mean_nonneg. intros x Hx. apply in_map_iff in Hx.
    destruct Hx as (i & <- & _). unfold tr.
    eapply Rle_trans; [|apply max2_ge_right]. cbn [nabs R_Absolute]. apply Rabs_pos.
  - assert (Hs : map (fun b => high b - low b) (skipn (length bars - 14) bars)
                 = map (fun i => get (map (@high R) bars) i - get (map (@low R) bars) i)
                       (seq (length bars - 14) 14)).
    { rewrite <- skipn_map.
      rewrite <- (nth_seq_skipn 0 (map (fun b => high b - low b) bars)
                                (length bars - 14)).
      rewrite length_map.
      replace (length bars - (length bars - 14))%nat with 14%nat by lia.
      apply map_ext_in. intros i Hi. apply in_seq in Hi.
      unfold get.
      rewrite (nth_indep _ 0 (high b0 - low b0)) by (rewrite length_map; lia).
      rewrite (nth_indep (map (@high R) bars) (of_Z 0) (high b0))
        by (rewrite length_map; lia).
      rewrite (nth_indep (map (@low R) bars) (of_Z 0) (low b0))
        by (rewrite length_map; lia).
      rewrite (map_nth (fun b => high b - low b)), (map_nth (@high R)),
        (map_nth (@low R)).
      reflexivity. }
    rewrite Hs. unfold mean. rewrite !length_map, !length_seq.
    apply Rmult_le_compat_r; [left; apply Rinv_0_lt_compat; apply lt_0_INR; lia|].
    generalize (seq (length bars - 14) 14). intros idx.
    unfold total. induction idx as [|i idx IH]; cbn; [lra|].
    assert (get (map (@high R) bars) i - get (map (@low R) bars) i <= tr i).
    { unfold tr. js_R. eapply Rle_trans; [|apply max2_ge_left]. apply max2_ge_left. }
    lra.
Qed.

End TrueRange.

Lemma calculateIndicators_atr_witness :
  (15 <= length (map (bar_of "2024-01-02T00:00:00Z")
                     (map IZR (map Z.of_nat (seq 1 15)))))%nat /\
  exists a,
    TechnicalIndicators.atr
      (calculateIndicators (map (bar_of "2024-01-02T00:00:00Z")
                                (map IZR (map Z.of_nat (seq 1 15))))) = Some a /\
    (0 <= a)%R.
Proof.
  split; [simpl; lia|].
  destruct (calculateIndicators_atr
              (map (bar_of "2024-01-02T00:00:00Z")
                   (map IZR (map Z.of_nat (seq 1 15))))) as (a & Ha & Hpos & _);
    [simpl; lia|].
  exists a. split; assumption.
Defined.

(** ** The MACD series *)

Section MACDSeriesShape.
Context {num : Type} `{Number num} `{Absolute num}.

Lemma macd_line_loop (bars : list (PriceBar num))
    (f : num * num * list num * list (Point num) -> nat
         -> num * num * list num * list (Point num)) :
  (forall e12 e26 mv ml i,
     exists e12' e26' m,
       f (e12, e26, mv, ml) i
       = (e12', e26', mv ++ [m], ml ++ [ {| time := bar_date bars i; value := m |} ])) ->
  forall (l : list nat) (st : num * num * list num * list (Point num)),
    snd (fst st) = map (@value num) (snd st) ->
    snd (fst (fold_left f l st)) = map (@value num) (snd (fold_left f l st)) /\
    map (@time num) (snd (fold_left f l st))
    = map (@time num) (snd st) ++ map (bar_date bars) l.
Proof.
  intros Hf l. induction l as [|i l IH]; intros [[[e12 e26] mv] ml] Hst;
    cbn [fold_left].
  - split; [exact Hst | cbn; now rewrite app_nil_r].
  - cbn [fst snd] in Hst.
    destruct (Hf e12 e26 mv ml i) as (e12' & e26' & m & ->).
    destruct (IH (e12', e26', mv ++ [m],
                  ml ++ [ {| time := bar_date bars i; value := m |} ])) as [IH1 IH2].
    + cbn [fst snd]. rewrite map_app, Hst. reflexivity.
    + split; [exact IH1|]. rewrite IH2. cbn [fst snd].
      rewrite map_app, <- app_assoc. reflexivity.
Qed.

Lemma macd_signal_loop (bars : list (PriceBar num)) (mv : list num)
    (g : num * list (Point num) * list (MACDSeries.bar num) -> nat
         -> num * list (Point num) * list (MACDSeries.bar num)) :
  (forall signal sl h i,
     exists signal',
       g (signal, sl, h) i
       = (signal',
          sl ++ [ {| time := bar_date bars (i + 26); value := signal' |} ],
          h ++ [ histogram_bar mv i
                   {| time := bar_date bars (i + 26); value := signal' |} ])) ->
  forall (n lo : nat) (signal : num) (sl : list (Point num))
         (h : list (MACDSeries.bar num)),
  exists signal' S,
    fold_left g (seq lo n) (signal, sl, h)
    = (signal', sl ++ S, h ++ map (fun iS => histogram_bar mv (fst iS) (snd iS))
                                  (combine (seq lo n) S)) /\
    length S = n /\
    map (@time num) S = map (fun i => bar_date bars (i + 26)) (seq lo n).
Proof.
  intros Hg n. induction n as [|n IH]; intros lo signal sl h.
  - exists signal, []. cbn. now rewrite !app_nil_r.
  - cbn [seq fold_left].
    destruct (Hg signal sl h lo) as (sg & ->).
    destruct (IH (Datatypes.S lo) sg
                 (sl ++ [ {| time := bar_date bars (lo + 26); value := sg |} ])
                 (h ++ [ histogram_bar mv lo
                           {| time := bar_date bars (lo + 26); value := sg |} ]))
      as (signal' & S & E & HS & HT).
    exists signal', ({| time := bar_date bars (lo + 26); value := sg |} :: S).
    split; [|split].
    + rewrite E. cbn [combine map fst snd]. rewrite <- !app_assoc. reflexivity.
    + cbn [length]. now rewrite HS.
    + cbn [map time]. now rewrite HT.
Qed.

(* The series generateMACDSeries builds from at least 26 bars. *)
Lemma generateMACDSeries_closed (bars : list (PriceBar num)) :
  26 <= length bars ->
  exists ml S,
    generateMACDSeries bars
    = {| MACDSeries.macdLine := ml;
         MACDSeries.signalLine := S;
         MACDSeries.histogram :=
           map (fun iS => histogram_bar (map (@value num) ml) (fst iS) (snd iS))
               (combine (seq 8 (length ml - 8)) S) |} /\
    map (@time num) ml = map (bar_date bars) (seq 26 (length bars - 26)) /\
    length S = length ml - 8 /\
    map (@time num) S = map (fun i => bar_date bars (i + 26)) (seq 8 (length ml - 8)).
Proof.
  intros Hlen. unfold generateMACDSeries. rewrite length_map.
  destruct (Nat.ltb_spec (length bars) 26); [lia|].
  unfold for_range.
  match goal with
  | |- context [fold_left ?f (seq 26 ?cnt) ?s0] =>
      destruct (macd_line_loop bars f) with (l := seq 26 cnt) (st := s0)
        as [Hmv Hml];
      [intros e12 e26 mv ml i; do 3 eexists; reflexivity | reflexivity |];
      destruct (fold_left f (seq 26 cnt) s0) as [[[e12 e26] mv] ml]
  end.
  cbn [fst snd] in Hmv, Hml. cbn [map app] in Hml. subst mv.
  rewrite length_map.
  destruct (Nat.leb_spec 9 (length ml)) as [Hge|Hlt].
  - match goal with
    | |- context [fold_left ?g (seq 8 ?cnt) (?sg, [], [])] =>
        destruct (macd_signal_loop bars (map (@value num) ml) g)
          with (n := cnt) (lo := 8) (signal := sg)
               (sl := @nil (Point num)) (h := @nil (MACDSeries.bar num))
          as (signal' & S & E & HS & HT);
        [intros signal sl h i; eexists; reflexivity|]
    end.
    rewrite E. cbn [app]. exists ml, S. repeat split; assumption.
  - exists ml, []. replace (length ml - 8) with 0 by lia.
    repeat split; exact Hml.
Qed.

Lemma seq_add (c n lo : nat) : map (fun i => i + c) (seq lo n) = seq (lo + c) n.
Proof.
  revert lo; induction n as [|n IH]; intros lo; [reflexivity|].
  cbn [seq map]. f_equal. apply (IH (Datatypes.S lo)).
Qed.

Lemma combine_seconds {T U : Type} (idx : list T) (l : list U) :
  length l = length idx -> map snd (combine idx l) = l.
Proof.
  revert l; induction idx as [|i idx IH]; intros [|x l] Hl; try discriminate;
    [reflexivity|]. cbn. f_equal. apply IH. now injection Hl.
Qed.

(** X15: generateMACDSeries returns three empty series for fewer than 26
    bars; otherwise the MACD line has one point per bar from index 26 on,
    and the signal line and the histogram have one point per bar from index
    34 on (none when there are fewer than 35 bars), each dated at its bar. *)
Theorem generateMACDSeries_shape (bars : list (PriceBar num)) :
  (length bars < 26 ->
   generateMACDSeries bars
   = {| MACDSeries.macdLine := []; MACDSeries.signalLine := [];
        MACDSeries.histogram := [] |}) /\
  (26 <= length bars ->
   map (@time num) (MACDSeries.macdLine (generateMACDSeries bars))
   = map (bar_date bars) (seq 26 (length bars - 26)) /\
   map (@time num) (MACDSeries.signalLine (generateMACDSeries bars))
   = map (bar_date bars) (seq 34 (length bars - 34)) /\
   map (@MACDSeries.time num) (MACDSeries.histogram (generateMACDSeries bars))
   = map (bar_date bars) (seq 34 (length bars - 34))).
Proof.
  split.
  - intros Hlt. unfold generateMACDSeries. rewrite length_map.
    destruct (Nat.ltb_spec (length bars) 26); [reflexivity | lia].
  - intros Hlen.
    destruct (generateMACDSeries_closed bars Hlen) as (ml & S & -> & Hml & HS & HT).
    cbn [MACDSeries.macdLine MACDSeries.signalLine MACDSeries.histogram].
    assert (Hl : length ml = length bars - 26).
    { rewrite <- (length_map (@time num) ml), Hml, length_map, length_seq.
      reflexivity. }
    assert (Hshift : map (fun i => bar_date bars (i + 26)) (seq 8 (length ml - 8))
                     = map (bar_date bars) (seq 34 (length bars - 34))).
    { rewrite <- (map_map (fun i => i + 26) (bar_date bars)), seq_add, Hl.
      do 2 f_equal. lia. }
    rewrite Hshift in HT.
    split; [exact Hml|]. split; [exact HT|].
    rewrite <- HT, map_map. cbn [histogram_bar MACDSeries.time].
    rewrite <- (map_map snd (@time num)), combine_seconds; [reflexivity|].
    now rewrite length_seq.
Qed.

(** X16: every histogram bar of generateMACDSeries is exactly the MACD line
    minus the signal line at the same bar: bar j of the histogram and point j
    of the signal line share the date of point j + 8 of the MACD line, the
    bar's value is that MACD value minus that signal value, and it is
    coloured #26a69a when the value is >= 0 and #ef5350 otherwise. *)
Theorem generateMACDSeries_histogram (bars : list (PriceBar num)) (j : nat) :
  j < length (MACDSeries.histogram (generateMACDSeries bars)) ->
  exists m s h,
    nth_error (MACDSeries.macdLine (generateMACDSeries bars)) (j + 8) = Some m /\
    nth_error (MACDSeries.signalLine (generateMACDSeries bars)) j = Some s /\
    nth_error (MACDSeries.histogram (generateMACDSeries bars)) j = Some h /\
    MACDSeries.value h = (value m - value s)%js /\
    MACDSeries.time h = time m /\
    time s = time m /\
    MACDSeries.color h
    = (if (MACDSeries.value h >=? of_Z 0)%js then "#26a69a" else "#ef5350")%string.
Proof.
  destruct (Nat.lt_ge_cases (length bars) 26) as [Hshort|Hlen].
  - unfold generateMACDSeries. rewrite length_map.
    destruct (Nat.ltb_spec (length bars) 26); [cbn; lia | lia].
  - destruct (generateMACDSeries_closed bars Hlen) as (ml & S & -> & Hml & HS & HT).
    cbn [MACDSeries.macdLine MACDSeries.signalLine MACDSeries.histogram].
    rewrite length_map, length_combine, length_seq, HS, Nat.min_id. intros Hj.
    destruct (nth_error ml (j + 8)) as [m|] eqn:Em;
      [|apply nth_error_None in Em; lia].
    destruct (nth_error S j) as [s|] eqn:Es;
      [|apply nth_error_None in Es; lia].
    exists m, s, (histogram_bar (map (@value num) ml) (8 + j) s).
    assert (Hget : get (map (@value num) ml) (8 + j) = value m).
    { unfold get. replace (8 + j) with (j + 8) by lia.
      apply nth_error_nth. now rewrite nth_error_map, Em. }
    assert (Hts : time s = bar_date bars (8 + j + 26)).
    { apply (f_equal (fun l => nth_error l j)) in HT.
      rewrite !nth_error_map, Es, nth_error_seq in HT.
      destruct (Nat.ltb_spec j (length ml - 8)); [|lia].
      cbn in HT. now injection HT. }
    assert (Htm : time m = bar_date bars (26 + (j + 8))).
    { apply (f_equal (fun l => nth_error l (j + 8))) in Hml.
      rewrite !nth_error_map, Em, nth_error_seq in Hml.
      destruct (Nat.ltb_spec (j + 8) (length bars - 26));
        cbn in Hml; [now injection Hml | discriminate]. }
    repeat split; trivial.
    + rewrite nth_error_map.
      assert (Hc : nth_error (combine (seq 8 (length ml - 8)) S) j = Some (8 + j, s)).
      { rewrite <- HS in Hj |- *. clear - Es Hj. revert Hj Es.
        generalize 8 as lo. revert j.
        induction S as [|x S IH]; intros j lo Hj Es; [cbn in Hj; lia|].
        cbn [length seq combine]. destruct j as [|j].
        - cbn in *. injection Es as ->. now rewrite Nat.add_0_r.
        - cbn [nth_error length] in *.
          rewrite (IH j (Datatypes.S lo)); [|lia | exact Es].
          do 2 f_equal. lia. }
      now rewrite Hc.
    + cbn [histogram_bar MACDSeries.value]. now rewrite Hget.
    + cbn [histogram_bar MACDSeries.time]. rewrite Hts, Htm. f_equal. lia.
    + rewrite Hts, Htm. f_equal. lia.
Qed.

End MACDSeriesShape.

Lemma generateMACDSeries_shape_witness :
  26 <= length long_bars /\
  map (@time float) (MACDSeries.signalLine (generateMACDSeries long_bars))
  = map (bar_date long_bars) (seq 34 (length long_bars - 34)).
Proof.
  split; [simpl; lia | apply (generateMACDSeries_shape long_bars); simpl; lia].
Defined.

Lemma generateMACDSeries_histogram_witness :
  1 < length (MACDSeries.histogram (generateMACDSeries long_bars)) /\
  exists m s h,
    nth_error (MACDSeries.macdLine (generateMACDSeries long_bars)) (1 + 8) = Some m /\
    nth_error (MACDSeries.signalLine (generateMACDSeries long_bars)) 1 = Some s /\
    nth_error (MACDSeries.histogram (generateMACDSeries long_bars)) 1 = Some h /\
    MACDSeries.value h = (value m - value s)%js.
Proof.
  assert (Hj : 1 < length (MACDSeries.histogram (generateMACDSeries long_bars)))
    by (vm_compute; lia).
  split; [exact Hj|].
  destruct (generateMACDSeries_histogram long_bars 1 Hj)
    as (m & s & h & Hm & Hs & Hh & Hv & _).
  exists m, s, h. repeat split; assumption.
Defined.

(** ** Drawdown series and the drawdown chart *)

Section DrawdownShape.
Context {num : Type} `{Number num}.

Lemma drawdown_loop
    (f : num * list (EquityPoint num) -> EquityPoint num
         -> num * list (EquityPoint num)) :
  (forall peak out point,
     exists peak' d,
       f (peak, out) point
       = (peak',
          out ++ [ {| date := date point; equity := equity point;
                      benchmark := benchmark point; drawdown := Some d |} ])) ->
  forall (l : list (EquityPoint num)) (st : num * list (EquityPoint num)),
  exists new,
    snd (fold_left f l st) = snd st ++ new /\
    map (@date num) new = map (@date num) l /\
    map (@equity num) new = map (@equity num) l /\
    map (@benchmark num) new = map (@benchmark num) l /\
    Forall (fun q => drawdown q <> None) new.
Proof.
  intros Hf l. induction l as [|x l IH]; intros [peak out]; cbn [fold_left].
  - exists []. cbn. rewrite app_nil_r. repeat split; trivial.
  - destruct (Hf peak out x) as (peak' & d & ->).
    destruct (IH (peak', out ++ [ {| date := date x; equity := equity x;
                                     benchmark := benchmark x;
                                     drawdown := Some d |} ]))
      as (new & E & Hd & He & Hb & Hdd).
    eexists ({| date := date x; equity := equity x; benchmark := benchmark x;
                drawdown := Some d |} :: new).
    rewrite E. cbn [fst snd map date equity benchmark].
    rewrite <- app_assoc, Hd, He, Hb. repeat split; trivial.
    constructor; [cbn; discriminate | exact Hdd].
Qed.

(* The series that calculateDrawdownSeries returns is the curve with a
   drawdown written into every point. *)
Lemma calculateDrawdownSeries_fields (curve : list (EquityPoint num)) :
  map (@date num) (calculateDrawdownSeries curve) = map (@date num) curve /\
  map (@equity num) (calculateDrawdownSeries curve) = map (@equity num) curve /\
  map (@benchmark num) (calculateDrawdownSeries curve) = map (@benchmark num) curve /\
  Forall (fun q => drawdown q <> None) (calculateDrawdownSeries curve).
Proof.
  destruct curve as [|first rest]; [repeat split; constructor|].
  unfold calculateDrawdownSeries.
  match goal with
  | |- context [fold_left ?f ?pts ?s0] =>
      destruct (drawdown_loop f) with (l := pts) (st := s0)
        as (new & -> & Hd & He & Hb & Hdd);
      [intros peak out point; do 2 eexists; reflexivity|]
  end.
  cbn [snd app]. repeat split; assumption.
Qed.

(** X17: in every number model calculateDrawdownSeries keeps the points of
    the curve one for one and in order, with their date, equity and
    benchmark unchanged, and gives every point a drawdown; an empty curve
    gives an empty series. *)
Theorem calculateDrawdownSeries_preserves (curve : list (EquityPoint num)) :
  length (calculateDrawdownSeries curve) = length curve /\
  map (@date num) (calculateDrawdownSeries curve) = map (@date num) curve /\
  map (@equity num) (calculateDrawdownSeries curve) = map (@equity num) curve /\
  map (@benchmark num) (calculateDrawdownSeries curve) = map (@benchmark num) curve /\
  Forall (fun q => drawdown q <> None) (calculateDrawdownSeries curve).
Proof.
  destruct (calculateDrawdownSeries_fields curve) as (Hd & He & Hb & Hdd).
  repeat split; try assumption.
  rewrite <- (length_map (@date num)), Hd. apply length_map.
Qed.

End DrawdownShape.

Section DrawdownChart.
Local Open Scope R_scope.

Lemma or_else_exact (x d : R) : d = 0 -> or_else (Some x) d = x.
Proof.
  intros ->. unfold or_else, truthy. js_R. unfold Reqb.
  destruct (Req_dec_T x 0) as [->|Hx]; [reflexivity|].
  destruct (Req_dec_T x x); [reflexivity | contradiction].
Qed.

Lemma fold_min2_minimum (xs : list R) (x : R) :
  In (fold_left min2 xs x) (x :: xs) /\
  forall y, In y (x :: xs) -> fold_left min2 xs x <= y.
Proof.
  revert x; induction xs as [|z zs IH]; intros x; cbn [fold_left].
  - split; [now left | intros y [<-|[]]; lra].
  - destruct (IH (min2 x z)) as [Hin Hmin].
    pose proof (Hmin (min2 x z) (or_introl eq_refl)) as Hm.
    split.
    + destruct Hin as [Hin|Hin]; [|right; right; exact Hin].
      rewrite <- Hin.
      destruct (min2_exact x z) as [[-> ?]|[-> ?]]; [now left | right; now left].
    + assert (Hx : min2 x z <= x)
        by (destruct (min2_exact x z) as [[-> ?]|[-> ?]]; lra).
      assert (Hz : min2 x z <= z)
        by (destruct (min2_exact x z) as [[-> ?]|[-> ?]]; lra).
      intros y [<-|[<-|Hy]]; [lra | lra | apply Hmin; now right].
Qed.

(** X18: for an equity curve whose first equity is positive, the
    "Max Drawdown" figure of the drawdown chart is at most 0, is the
    drawdown of one of the points of the series, and is at or below the
    drawdown of every point; with no data the chart computes no figure. *)
Theorem DrawdownChart_maxDrawdown_least
    (first : EquityPoint R) (rest : list (EquityPoint R)) :
  DrawdownChart_maxDrawdown (@nil (EquityPoint R)) = None /\
  (0 < equity first ->
   exists m,
     DrawdownChart_maxDrawdown (first :: rest) = Some m /\
     m <= 0 /\
     (exists q, In q (calculateDrawdownSeries (first :: rest)) /\
                drawdown q = Some m) /\
     (forall q d, In q (calculateDrawdownSeries (first :: rest)) ->
                  drawdown q = Some d -> m <= d)).
Proof.
  split; [reflexivity|]. intros Hpos.
  unfold DrawdownChart_maxDrawdown.
  set (out := calculateDrawdownSeries (first :: rest)).
  assert (Hall : forall q, In q out ->
                   exists d, drawdown q = Some d
                             /\ or_else (drawdown q) (of_Z 0) = d).
  { intros q Hq.
    destruct (calculateDrawdownSeries_fields (first :: rest)) as (_ & _ & _ & Hd).
    fold out in Hd. rewrite Forall_forall in Hd. specialize (Hd q Hq).
    destruct (drawdown q) as [d|]; [|congruence].
    exists d. split; [reflexivity|]. now apply or_else_exact. }
  assert (Hfirst : exists q0 outs, out = q0 :: outs /\ drawdown q0 = Some 0).
  { unfold out. rewrite calculateDrawdownSeries_fold.
    destruct (drawdown_run (equity first) (first :: rest) Hpos)
      as (_ & _ & _ & Hlen & Hpts).
    destruct (Hpts 0%nat first eq_refl) as (q & d & Hq & _ & _ & _ & Hd & _ & Hzero).
    destruct (snd (fold_left drawdown_step (first :: rest) (equity first, [])))
      as [|q0 outs]; [discriminate|].
    cbn in Hq. injection Hq as ->. exists q, outs. split; [reflexivity|].
    rewrite Hd. f_equal. apply Hzero. split; [lra | intros j pj Hj; lia]. }
  destruct Hfirst as (q0 & outs & Eout & Hq0).
  eexists. split; [reflexivity|].
  rewrite Eout. cbn [map Math_min].
  match goal with
  | |- context [fold_left min2 ?xs ?x0] =>
      destruct (fold_min2_minimum xs x0) as [Hin Hmin];
      set (m := fold_left min2 xs x0) in *
  end.
  change (In m (map (fun d => or_else (drawdown d) (of_Z 0)) (q0 :: outs))) in Hin.
  change (forall y, In y (map (fun d => or_else (drawdown d) (of_Z 0)) (q0 :: outs))
                    -> m <= y) in Hmin.
  rewrite <- Eout in Hin, Hmin.
  split; [|split].
  - assert (H0 : or_else (drawdown q0) (of_Z 0) = 0)
      by (rewrite Hq0; now apply or_else_exact).
    rewrite <- H0. apply Hmin. rewrite Eout. now left.
  - apply in_map_iff in Hin. destruct Hin as (q & Hq & Hin).
    destruct (Hall q Hin) as (d & Hd & Hor).
    exists q. split; [rewrite <- Eout; exact Hin|]. rewrite Hd. f_equal. congruence.
  - intros q d Hq Hd. rewrite <- Eout in Hq.
    destruct (Hall q Hq) as (d' & Hd' & Hor).
    assert (Hdd : d' = d) by congruence. rewrite <- Hdd, <- Hor.
    apply Hmin.
    exact (in_map (fun p : EquityPoint R => or_else (drawdown p) (of_Z 0)) out q Hq).
Qed.

End DrawdownChart.

Lemma DrawdownChart_maxDrawdown_least_witness :
  (0 < equity (equity_point "2023-01-01" 100%R))%R /\
  exists m,
    DrawdownChart_maxDrawdown
      (equity_point "2023-01-01" 100%R :: [equity_point "2023-01-02" 90%R]) = Some m /\
    (m <= 0)%R.
Proof.
  assert (Hpos : (0 < equity (equity_point "2023-01-01" 100%R))%R) by (simpl; lra).
  split; [exact Hpos|].
  destruct (DrawdownChart_maxDrawdown_least
              (equity_point "2023-01-01" 100%R) [equity_point "2023-01-02" 90%R])
    as [_ Hm].
  destruct (Hm Hpos) as (m & Hm1 & Hm2 & _).
  exists m. split; assumption.
Defined.

(** ** Trade statistics *)

Section TradeFilter.
Context {num : Type} `{Number num}.

Lemma filter_idempotent {T : Type} (f : T -> bool) (l : list T) :
  filter f (filter f l) = filter f l.
Proof.
  induction l as [|x l IH]; [reflexivity|]. cbn [filter].
  destruct (f x) eqn:E; [cbn [filter]; rewrite E, IH; reflexivity | exact IH].
Qed.

(** X19: analyzeTradeDistribution ignores every trade that is open or has
    no pnlPercent: its result is the one it gives for the closed trades
    alone, so adding or removing such a trade changes nothing, in every
    number model. *)
Theorem analyzeTradeDistribution_closed_only (trades : list (Trade.t num)) :
  analyzeTradeDistribution trades
  = analyzeTradeDistribution (filter is_closed trades) /\
  (forall front back t,
     is_closed t = false ->
     analyzeTradeDistribution (front ++ t :: back)
     = analyzeTradeDistribution (front ++ back)).
Proof.
  split.
  - unfold analyzeTradeDistribution. now rewrite filter_idempotent.
  - intros front back t Ht. unfold analyzeTradeDistribution.
    rewrite !filter_app. cbn [filter]. now rewrite Ht.
Qed.

End TradeFilter.

Lemma analyzeTradeDistribution_closed_only_witness :
  is_closed {| Trade.id := "9"; Trade.symbol := "AAPL"; Trade.pnl := None;
               Trade.pnlPercent := @None float; Trade.status := status_open |}
  = false /\
  analyzeTradeDistribution
    ([closed_trade "1" 10%float]
       ++ {| Trade.id := "9"; Trade.symbol := "AAPL"; Trade.pnl := None;
             Trade.pnlPercent := None; Trade.status := status_open |}
       :: [closed_trade "2" 20%float])
  = analyzeTradeDistribution ([closed_trade "1" 10%float] ++ [closed_trade "2" 20%float]).
Proof.
  split; [reflexivity|].
  apply (analyzeTradeDistribution_closed_only (@nil (Trade.t float))). reflexivity.
Defined.

Section TradeStatistics.
Local Open Scope R_scope.

Lemma total_nonpos (l : list R) :
  (forall x, In x l -> x <= 0) -> total l <= 0.
Proof.
  unfold total. induction l as [|x l IH]; intros Hl; cbn; [lra|].
  pose proof (Hl x (or_introl eq_refl)).
  assert (fold_right Rplus 0 l <= 0) by (apply IH; intros y Hy; apply Hl; now right).
  lra.
Qed.

Lemma total_positive (l : list R) :
  l <> [] -> (forall x, In x l -> 0 < x) -> 0 < total l.
Proof.
  intros Hne Hl. destruct l as [|x l]; [congruence|].
  pose proof (Hl x (or_introl eq_refl)).
  assert (0 <= total l).
  { apply total_nonneg. intros y Hy. left. apply Hl. now right. }
  unfold total in *. cbn. lra.
Qed.

Lemma filter_length_le {T : Type} (f : T -> bool) (l : list T) :
  (length (filter f l) <= length l)%nat.
Proof.
  induction l as [|x l IH]; cbn; [lia|]. destruct (f x); cbn; lia.
Qed.

(** X20: for every non-empty set of closed trades, analyzeTradeDistribution
    returns a win rate in [0, 100], an average win that is positive when
    some closed trade has a positive pnlPercent and 0 when none has, and an
    average loss that is never positive. *)
Theorem analyzeTradeDistribution_statistics (trades : list (Trade.t R)) :
  filter is_closed trades <> [] ->
  0 <= Distribution.winRate (analyzeTradeDistribution trades) <= 100 /\
  ((exists t, In t (filter is_closed trades) /\ 0 < pnlPercent_or0 t) ->
   0 < Distribution.avgWin (analyzeTradeDistribution trades)) /\
  ((forall t, In t (filter is_closed trades) -> pnlPercent_or0 t <= 0) ->
   Distribution.avgWin (analyzeTradeDistribution trades) = 0) /\
  Distribution.avgLoss (analyzeTradeDistribution trades) <= 0.
Proof.
  intros Hne. unfold analyzeTradeDistribution.
  destruct (filter is_closed trades) as [|t0 ts] eqn:Ecl; [congruence|].
  set (closed := t0 :: ts) in *.
  cbn [Distribution.winRate Distribution.avgWin Distribution.avgLoss].
  set (winners := filter (fun t => (pnlPercent_or0 t >? of_Z 0)%js) closed).
  set (losers := filter (fun t => (pnlPercent_or0 t <=? of_Z 0)%js) closed).
  assert (Hc : 0 < INR (length closed)) by (apply lt_0_INR; cbn; lia).
  assert (Hw : INR (length winners) <= INR (length closed))
    by (apply le_INR, filter_length_le).
  assert (Hwin : forall t, In t winners -> In t closed /\ 0 < pnlPercent_or0 t).
  { intros t Ht. apply filter_In in Ht. destruct Ht as [Hin Hgt]. split; [exact Hin|].
    js_R. unfold Rltb in Hgt. destruct (Rlt_dec 0 (pnlPercent_or0 t)); [lra | discriminate]. }
  assert (Hlose : forall t, In t losers -> pnlPercent_or0 t <= 0).
  { intros t Ht. apply filter_In in Ht. destruct Ht as [_ Hle].
    js_R. unfold Rleb in Hle. destruct (Rle_dec (pnlPercent_or0 t) 0); [lra | discriminate]. }
  unfold of_nat. js_R. rewrite <- !INR_IZR_INZ.
  rewrite !(fold_left_total (@pnlPercent_or0 R _)), !Rplus_0_l.
  split; [|split; [|split]].
  - pose proof (pos_INR (length winners)) as Hw0.
    assert (Hq : 0 <= INR (length winners) / INR (length closed) <= 1).
    { split.
      - apply Rmult_le_pos; [exact Hw0 | left; now apply Rinv_0_lt_compat].
      - apply (Rmult_le_reg_r (INR (length closed))); [exact Hc|].
        unfold Rdiv. rewrite Rmult_assoc, Rinv_l by lra. lra. }
    lra.
  - intros (t & Hin & Hgt).
    assert (Htw : In t winners).
    { apply filter_In. split; [exact Hin|]. js_R. now apply Rltb_true. }
    destruct winners as [|w ws] eqn:Ew; [contradiction|]. cbn [length Nat.ltb Nat.leb].
    apply Rmult_lt_0_compat.
    + apply total_positive; [discriminate|].
      intros x Hx. apply in_map_iff in Hx. destruct Hx as (u & <- & Hu).
      now apply Hwin.
    + apply Rinv_0_lt_compat. apply lt_0_INR. cbn; lia.
  - intros Hnone. destruct winners as [|w ws] eqn:Ew; [reflexivity|].
    destruct (Hwin w (or_introl eq_refl)) as [Hin Hgt].
    specialize (Hnone w Hin). lra.
  - destruct losers as [|l0 ls] eqn:El; [cbn; lra|]. cbn [length Nat.ltb Nat.leb].
    assert (Hn : 0 < INR (length (l0 :: ls))) by (apply lt_0_INR; cbn; lia).
    assert (Ht : total (map (@pnlPercent_or0 R _) (l0 :: ls)) <= 0).
    { apply total_nonpos. intros x Hx. apply in_map_iff in Hx.
      destruct Hx as (u & <- & Hu). now apply Hlose. }
    pose proof (Rinv_0_lt_compat _ Hn) as Hinv. cbn [length] in Hinv.
    unfold Rdiv. nra.
Qed.

End TradeStatistics.

Lemma analyzeTradeDistribution_statistics_witness :
  filter is_closed (@three_trades R _) <> [] /\
  (0 <= Distribution.winRate (analyzeTradeDistribution (@three_trades R _)) <= 100)%R.
Proof.
  split; [discriminate|].
  apply (analyzeTradeDistribution_statistics three_trades). discriminate.
Defined.

Section HistogramShape.
Local Open Scope R_scope.

(** X21: in exact arithmetic the histogram of any non-empty set of closed
    trades has 20 bins; bin i starts at lo + i * (hi - lo) / 20, where lo
    and hi are the least and the greatest pnlPercent of the closed trades;
    a bin is tagged positive exactly when its start is >= 0; and when all
    closed trades have the same pnlPercent every bin is empty. *)
Theorem analyzeTradeDistribution_histogram (trades : list (Trade.t R)) :
  filter is_closed trades <> [] ->
  exists lo hi,
    (In lo (map pnlPercent_or0 (filter is_closed trades)) /\
     forall p, In p (map pnlPercent_or0 (filter is_closed trades)) -> lo <= p) /\
    (In hi (map pnlPercent_or0 (filter is_closed trades)) /\
     forall p, In p (map pnlPercent_or0 (filter is_closed trades)) -> p <= hi) /\
    map (@Distribution.start R) (Distribution.bins (analyzeTradeDistribution trades))
    = map (fun i => lo + INR i * ((hi - lo) / 20)) (seq 0 20) /\
    Forall (fun b => Distribution.isPositive b = true <-> 0 <= Distribution.start b)
           (Distribution.bins (analyzeTradeDistribution trades)) /\
    ((forall t, In t (filter is_closed trades) -> pnlPercent_or0 t = lo) ->
     Forall (fun b => Distribution.count b = 0%nat)
            (Distribution.bins (analyzeTradeDistribution trades))).
Proof.
  intros Hne. rewrite (analyzeTradeDistribution_bins trades Hne).
  set (pnls := map pnlPercent_or0 (filter is_closed trades)).
  assert (Hpn : pnls <> []).
  { unfold pnls. destruct (filter is_closed trades); [congruence | discriminate]. }
  destruct (Math_max_maximum pnls Hpn) as [Hhi_in Hhi].
  assert (Hlo : In (Math_min pnls) pnls /\ forall p, In p pnls -> Math_min pnls <= p).
  { destruct pnls as [|x xs]; [congruence|]. apply fold_min2_minimum. }
  set (lo := Math_min pnls) in *. set (hi := Math_max pnls) in *.
  exists lo, hi. split; [exact Hlo|]. split; [split; [exact Hhi_in | exact Hhi]|].
  split; [rewrite map_map; reflexivity|]. split.
  - apply Forall_forall. intros b Hb. apply in_map_iff in Hb.
    destruct Hb as (i & <- & _). cbn [Distribution.isPositive Distribution.start].
    unfold Rleb. destruct (Rle_dec 0 (lo + INR i * ((hi - lo) / 20))); split;
      intros Hx; solve [reflexivity | assumption | discriminate | contradiction].
  - intros Hsame. apply Forall_forall. intros b Hb. apply in_map_iff in Hb.
    destruct Hb as (i & <- & _). cbn [Distribution.count].
    assert (Hall : forall p, In p pnls -> p = lo).
    { intros p Hp. unfold pnls in Hp. apply in_map_iff in Hp.
      destruct Hp as (t & <- & Ht). now apply Hsame. }
    rewrite filter_none; [reflexivity|].
    intros p Hp. rewrite (Hall p Hp), (Hall hi Hhi_in).
    unfold in_bin. apply andb_false_iff. right. apply Rltb_false.
    replace ((lo - lo) / 20) with 0 by lra. rewrite Rmult_0_r. lra.
Qed.

End HistogramShape.

Lemma analyzeTradeDistribution_histogram_witness :
  filter is_closed (@three_trades R _) <> [] /\
  exists lo hi,
    map (@Distribution.start R)
        (Distribution.bins (analyzeTradeDistribution (@three_trades R _)))
    = map (fun i => (lo + INR i * ((hi - lo) / 20))%R) (seq 0 20).
Proof.
  assert (Hne : filter is_closed (@three_trades R _) <> []) by discriminate.
  split; [exact Hne|].
  destruct (analyzeTradeDistribution_histogram three_trades Hne)
    as (lo & hi & _ & _ & Hstart & _).
  exists lo, hi. exact Hstart.
Defined.

(** ** Comparing strategies *)

Section ComparisonRows.

Lemma Forall2_in_right {T U : Type} (P : T -> U -> Prop) (l : list T) (l' : list U)
    (y : U) :
  Forall2 P l l' -> In y l' -> exists x, In x l /\ P x y.
Proof.
  induction 1 as [|x y' l l' Hxy _ IH]; intros Hy; [contradiction|].
  destruct Hy as [<-|Hy].
  - exists x. split; [now left | exact Hxy].
  - destruct (IH Hy) as (x' & Hx' & HP). exists x'. split; [now right | exact HP].
Qed.

Lemma Forall2_in_left {T U : Type} (P : T -> U -> Prop) (l : list T) (l' : list U)
    (x : T) :
  Forall2 P l l' -> In x l -> exists y, In y l' /\ P x y.
Proof.
  induction 1 as [|x' y l l' Hxy _ IH]; intros Hx; [contradiction|].
  destruct Hx as [<-|Hx].
  - exists y. split; [now left | exact Hxy].
  - destruct (IH Hx) as (y' & Hy' & HP). exists y'. split; [now right | exact HP].
Qed.

(** X22: for a non-empty list of backtest results every row of
    compareBacktestMetrics has one entry per strategy and marks at least one
    of them best; for an empty list there are no rows. *)
Theorem compareBacktestMetrics_some_best (results : list (BacktestResult.t R)) :
  compareBacktestMetrics (@nil (BacktestResult.t R)) = [] /\
  (results <> [] ->
   forall row, In row (compareBacktestMetrics results) ->
     length (Comparison.values row) = length results /\
     exists e, In e (Comparison.values row) /\ Comparison.best e = true).
Proof.
  split; [reflexivity|]. intros Hne row Hrow.
  destruct (Forall2_in_right _ _ _ row (compareBacktestMetrics_rows results Hne) Hrow)
    as (k & _ & b & [Hb _] & Hrel).
  split; [symmetry; exact (Forall2_length Hrel)|].
  apply in_map_iff in Hb. destruct Hb as (r & Hr & Hin).
  destruct (Forall2_in_left _ _ _ r Hrel Hin) as (e & He & _ & Hval & Hbest).
  exists e. split; [exact He|]. apply Hbest. congruence.
Qed.

End ComparisonRows.

Lemma compareBacktestMetrics_some_best_witness :
  [@strategy_A R _; strategy_B] <> [] /\
  forall row, In row (compareBacktestMetrics [@strategy_A R _; strategy_B]) ->
    length (Comparison.values row) = length [@strategy_A R _; strategy_B] /\
    exists e, In e (Comparison.values row) /\ Comparison.best e = true.
Proof.
  split; [discriminate|].
  apply (compareBacktestMetrics_some_best [strategy_A; strategy_B]). discriminate.
Defined.

Section TopPerformer.
Context {num : Type} `{Number num}.

(** X23: the "Top Performer" badge of the strategy comparison goes to
    exactly the strategies that compareBacktestMetrics marks best in its
    first row, the Total Return row, in every number model. *)
Theorem isTopPerformer_total_return_row (results : list (BacktestResult.t num)) :
  results <> [] ->
  exists row,
    nth_error (compareBacktestMetrics results) 0 = Some row /\
    Comparison.metric row = "Total Return (%)"%string /\
    map (@Comparison.name num) (Comparison.values row)
    = map (@BacktestResult.strategyName num) results /\
    map (@Comparison.best num) (Comparison.values row)
    = map (isTopPerformer results) results.
Proof.
  intros Hne. unfold compareBacktestMetrics.
  destruct results as [|r0 rs] eqn:E; [congruence|]. rewrite <- E.
  eexists. split; [reflexivity|]. split; [reflexivity|].
  cbn [Comparison.values]. rewrite !map_map. cbn [Comparison.name Comparison.best fst snd].
  split; [reflexivity|].
  apply map_ext. intros r. unfold isTopPerformer, bestValue.
  cbn [higherIsBetter metric_value]. now rewrite map_map.
Qed.

End TopPerformer.

Lemma isTopPerformer_total_return_row_witness :
  [@strategy_A float _; strategy_B] <> [] /\
  exists row,
    nth_error (compareBacktestMetrics [@strategy_A float _; strategy_B]) 0 = Some row /\
    map (@Comparison.best float) (Comparison.values row)
    = map (isTopPerformer [strategy_A; strategy_B]) [@strategy_A float _; strategy_B].
Proof.
  split; [discriminate|].
  destruct (isTopPerformer_total_return_row [@strategy_A float _; strategy_B])
    as (row & Hrow & _ & _ & Hbest); [discriminate|].
  exists row. split; assumption.
Defined.

(** ** Portfolio scores at the extremes and under reordering *)

Section PortfolioExtremes.
Local Open Scope R_scope.

Lemma total_constant {T : Type} (f : T -> R) (c : R) (l : list T) :
  (forall x, In x l -> f x = c) -> total (map f l) = INR (length l) * c.
Proof.
  unfold total. induction l as [|x l IH]; intros Hl; [cbn; lra|].
  cbn [map fold_right length].
  rewrite S_INR, (Hl x (or_introl eq_refl)), IH;
    [lra | intros y Hy; apply Hl; now right].
Qed.

Lemma total_app (l1 l2 : list R) : total (l1 ++ l2) = total l1 + total l2.
Proof.
  unfold total. induction l1 as [|x l1 IH]; cbn; [lra|]. rewrite IH. lra.
Qed.

Lemma score_of_index (positions : list (Position R)) (hhi : R) :
  (2 <= length positions)%nat ->
  total (map (fun p => allocation p / 100 * (allocation p / 100)) positions) = hhi ->
  calculateDiversificationScore positions
  = Rround ((1 - hhi) / (1 - 1 / INR (length positions)) * 100).
Proof.
  intros Hlen Hhhi. unfold calculateDiversificationScore.
  destruct (length positions) as [|[|n]] eqn:Hn; [lia | lia |].
  unfold pow2, of_nat. js_R.
  rewrite (fold_left_total (fun p => allocation p / 100 * (allocation p / 100))).
  rewrite Hhhi, Rplus_0_l, <- INR_IZR_INZ. reflexivity.
Qed.

(** X24: a portfolio of n >= 2 positions that each hold 100/n percent
    scores exactly 100, and a portfolio of at least two positions in which
    one holds 100 percent and the others 0 scores exactly 0. *)
Theorem calculateDiversificationScore_extremes (positions : list (Position R)) :
  (2 <= length positions)%nat ->
  ((forall p, In p positions -> allocation p = 100 / INR (length positions)) ->
   calculateDiversificationScore positions = 100) /\
  (forall front back p,
     positions = front ++ p :: back ->
     allocation p = 100 ->
     (forall q, In q (front ++ back) -> allocation q = 0) ->
     calculateDiversificationScore positions = 0).
Proof.
  intros Hlen.
  assert (Hn : 2 <= INR (length positions)).
  { replace 2 with (INR 2) by (cbn; lra). apply le_INR. exact Hlen. }
  split.
  - intros Heven.
    rewrite (score_of_index positions (/ INR (length positions)) Hlen).
    + replace ((1 - / INR (length positions)) / (1 - 1 / INR (length positions)) * 100)
        with 100 by (field; lra).
      apply (Rround_integer 100).
    + rewrite (total_constant _ (/ INR (length positions) * / INR (length positions))).
      * field. lra.
      * intros p Hp. rewrite (Heven p Hp). field. lra.
  - intros front back p Hpos Hp Hrest.
    rewrite (score_of_index positions 1 Hlen).
    + replace ((1 - 1) / (1 - 1 / INR (length positions)) * 100) with 0
        by (unfold Rdiv; ring).
      apply (Rround_integer 0).
    + rewrite Hpos, map_app, total_app. cbn [map].
      change (total (?x :: ?l)) with (x + total l).
      rewrite (total_constant _ 0 front), (total_constant _ 0 back), Hp.
      * field.
      * intros q Hq. rewrite (Hrest q) by (apply in_or_app; now right).
        unfold Rdiv. ring.
      * intros q Hq. rewrite (Hrest q) by (apply in_or_app; now left).
        unfold Rdiv. ring.
Qed.

Lemma total_permutation (l l' : list R) : Permutation l l' -> total l = total l'.
Proof.
  unfold total. induction 1; cbn; lra.
Qed.

(** X25: the order of the positions does not matter: reordering them leaves
    calculatePortfolioMetrics and calculateDiversificationScore unchanged. *)
Theorem portfolio_order_irrelevant (positions positions' : list (Position R)) :
  Permutation positions positions' ->
  calculatePortfolioMetrics positions = calculatePortfolioMetrics positions' /\
  calculateDiversificationScore positions = calculateDiversificationScore positions'.
Proof.
  intros Hperm. split.
  - unfold calculatePortfolioMetrics. js_R.
    rewrite !(fold_left_total (@marketValue R)), !(fold_left_total (@unrealizedPnL R)).
    rewrite (total_permutation _ _ (Permutation_map (@marketValue R) Hperm)).
    rewrite (total_permutation _ _ (Permutation_map (@unrealizedPnL R) Hperm)).
    reflexivity.
  - unfold calculateDiversificationScore.
    rewrite (Permutation_length Hperm).
    destruct (length positions') as [|[|n]]; [reflexivity | reflexivity |].
    unfold pow2. js_R.
    rewrite !(fold_left_total (fun p => allocation p / 100 * (allocation p / 100))).
    rewrite (total_permutation _ _
               (Permutation_map (fun p => allocation p / 100 * (allocation p / 100))
                                Hperm)).
    reflexivity.
Qed.

End PortfolioExtremes.

Lemma calculateDiversificationScore_extremes_witness :
  (2 <= length (@even_split R _))%nat /\
  ((forall p, In p (@even_split R _)
              -> allocation p = (100 / INR (length (@even_split R _)))%R) ->
   calculateDiversificationScore (@even_split R _) = 100%R).
Proof.
  split; [simpl; lia|].
  apply (calculateDiversificationScore_extremes even_split). simpl; lia.
Defined.

Lemma portfolio_order_irrelevant_witness :
  Permutation (@short_position R _ ++ gaining_position)
              (gaining_position ++ short_position) /\
  calculatePortfolioMetrics (@short_position R _ ++ gaining_position)
  = calculatePortfolioMetrics (gaining_position ++ short_position).
Proof.
  split; [apply Permutation_app_comm|].
  apply (portfolio_order_irrelevant (@short_position R _ ++ gaining_position)
                                    (gaining_position ++ short_position)).
  apply Permutation_app_comm.
Defined.

(** ** The dates of the rolling metrics *)

Section RollingDates.
Context {num : Type} `{Number num}.

Lemma date_at_nth (curve : list (EquityPoint num)) (i : nat) :
  date_at curve i = nth i (map (@date num) curve) EmptyString.
Proof.
  unfold date_at. revert i; induction curve as [|p curve IH]; intros [|i];
    try reflexivity. cbn [nth_error map nth]. apply IH.
Qed.

(** X26: calculateRollingMetrics is empty when the curve has fewer points
    than the window; otherwise it has one entry per point from index window
    on, carrying the dates of those points in order, in every number model. *)
Theorem calculateRollingMetrics_dates (curve : list (EquityPoint num)) (window : nat) :
  (length curve < window -> calculateRollingMetrics curve window = []) /\
  (window <= length curve ->
   map (@Rolling.date num) (calculateRollingMetrics curve window)
   = map (@date num) (skipn window curve)).
Proof.
  unfold calculateRollingMetrics. split.
  - intros Hlt. destruct (Nat.ltb_spec (length curve) window); [reflexivity | lia].
  - intros Hle. destruct (Nat.ltb_spec (length curve) window); [lia|].
    rewrite for_range_push. cbn [app]. rewrite map_map. cbn [Rolling.date].
    rewrite <- skipn_map, <- (nth_seq_skipn EmptyString), length_map.
    apply map_ext. intros i. apply date_at_nth.
Qed.

End RollingDates.

Lemma calculateRollingMetrics_dates_witness :
  3 <= length (@sample_curve float _) /\
  map (@Rolling.date float) (calculateRollingMetrics sample_curve 3)
  = map (@date float) (skipn 3 sample_curve).
Proof.
  split; [simpl; lia | apply (calculateRollingMetrics_dates sample_curve 3); simpl; lia].
Defined.

Lemma rising_series_rsi_witness :
  ((1 <= 1)%nat /\
   rising (map (@close R) (map (bar_of "2024-01-02T00:00:00Z") [1%R; 2%R; 3%R])) /\
   (1 + 1 <= length (map (bar_of "2024-01-02T00:00:00Z") [1%R; 2%R; 3%R]))%nat) /\
  calculateRSI (map (@close R) (map (bar_of "2024-01-02T00:00:00Z") [1%R; 2%R; 3%R])) 1
  = Some 100%R.
Proof.
  assert (Hup : rising (map (@close R)
                          (map (bar_of "2024-01-02T00:00:00Z") [1%R; 2%R; 3%R]))).
  { intros i Hi. cbn in Hi. destruct i as [|[|[|i]]]; try lia; cbn; lra. }
  split; [split; [lia | split; [exact Hup | simpl; lia]]|].
  apply (rising_series_rsi (map (bar_of "2024-01-02T00:00:00Z") [1%R; 2%R; 3%R]) 1);
    [lia | exact Hup | simpl; lia].
Defined.

(** ** EMA and SMA agree on every linear series *)

(** X28: on a series that rises or falls by the same amount d at every step,
    a, a + d, a + 2d, ..., calculateEMA and calculateSMA return the same
    value for every period between 1 and the length, namely the last value
    minus d * (period - 1) / 2. *)
Theorem linear_series_EMA_is_SMA (a d : R) (n p : nat) :
  1 <= p <= n ->
  calculateEMA (map (linear_term a d) (seq 0 n)) p
  = calculateSMA (map (linear_term a d) (seq 0 n)) p /\
  calculateSMA (map (linear_term a d) (seq 0 n)) p
  = Some (linear_term a d (n - 1) - d * (INR p - 1) / 2)%R.
Proof.
  intros Hp. rewrite calculateEMA_linear, calculateSMA_linear by exact Hp.
  split; [reflexivity|]. f_equal. unfold linear_term.
  rewrite minus_INR by lia. cbn [INR]. lra.
Qed.

Lemma linear_series_EMA_is_SMA_witness :
  1 <= 3 <= 10 /\
  calculateEMA (map (linear_term 100 (/ 2)) (seq 0 10)) 3
  = calculateSMA (map (linear_term 100 (/ 2)) (seq 0 10)) 3.
Proof.
  split; [lia | apply (linear_series_EMA_is_SMA 100 (/ 2) 10 3); lia].
Defined.
